(** * The HTTP front end of the varnish agent (src/modules/http.c)

    A shallow embedding of the request dispatcher: the listener list and
    its matching loop, the per-connection state driven by the transport's
    repeated callbacks, the Basic-auth gate, the response builder and the
    help page.  C strings are [string] values (the characters before the
    terminating NUL); pointers that may be NULL are [option]s; the effects
    on the transport (a response queued, a handler called) are collected
    in an event list. *)

From Stdlib Require Import String Ascii List ZArith Lia Bool.
Import ListNotations.
Local Open Scope list_scope.
Local Open Scope string_scope.

(* ------------------------------------------------------------------ *)
(** ** The C string functions the file calls *)

Module CStr.

Definition uchar (c : ascii) : Z := Z.of_nat (nat_of_ascii c).

Definition strlen (s : string) : nat := String.length s.

(** [p + n] for a [char *] that points into a string. *)
Fixpoint advance (s : string) (n : nat) {struct n} : string :=
  match n, s with
  | O, _ => s
  | S _, EmptyString => EmptyString
  | S n', String _ r => advance r n'
  end.

(** [strcmp]: zero on equal strings, otherwise the sign of the first
    difference (the terminator is below every character). *)
Fixpoint strcmp (a b : string) : Z :=
  match a, b with
  | EmptyString, EmptyString => 0
  | EmptyString, String _ _ => -1
  | String _ _, EmptyString => 1
  | String x a', String y b' =>
      if Ascii.eqb x y then strcmp a' b' else (uchar x - uchar y)%Z
  end.

(** [strncmp]: as [strcmp], over at most [n] characters. *)
Fixpoint strncmp (a b : string) (n : nat) {struct n} : Z :=
  match n with
  | O => 0
  | S n' =>
      match a, b with
      | EmptyString, EmptyString => 0
      | EmptyString, String _ _ => -1
      | String _ _, EmptyString => 1
      | String x a', String y b' =>
          if Ascii.eqb x y then strncmp a' b' n' else (uchar x - uchar y)%Z
      end
  end.

Definition tolower (c : ascii) : ascii :=
  let n := nat_of_ascii c in
  if ((65 <=? n) && (n <=? 90))%nat then ascii_of_nat (n + 32) else c.

(** [strcasecmp]: [strcmp] on the lower-cased characters. *)
Fixpoint strcasecmp (a b : string) : Z :=
  match a, b with
  | EmptyString, EmptyString => 0
  | EmptyString, String _ _ => -1
  | String _ _, EmptyString => 1
  | String x a', String y b' =>
      if Ascii.eqb (tolower x) (tolower y) then strcasecmp a' b'
      else (uchar (tolower x) - uchar (tolower y))%Z
  end.

Definition nl : string := String "010"%char EmptyString.
Definition NUL : ascii := "000"%char.

Lemma uchar_diff x y : Ascii.eqb x y = false -> (uchar x - uchar y)%Z <> 0%Z.
Proof.
  intros E H. apply Ascii.eqb_neq in E. apply E.
  unfold uchar in H.
  rewrite <- (ascii_nat_embedding x), <- (ascii_nat_embedding y).
  f_equal. lia.
Qed.

Lemma strcmp_refl a : strcmp a a = 0%Z.
Proof. induction a as [|x a IH]; simpl; [|rewrite Ascii.eqb_refl]; auto. Qed.

Lemma strcmp_eq a : forall b, strcmp a b = 0%Z <-> a = b.
Proof.
  induction a as [|x a IH]; intros [|y b]; simpl; split; intros H;
    try reflexivity; try discriminate.
  - destruct (Ascii.eqb x y) eqn:E.
    + apply Ascii.eqb_eq in E. apply IH in H. congruence.
    + exfalso. exact (uchar_diff _ _ E H).
  - inversion H; subst. rewrite Ascii.eqb_refl. apply strcmp_refl.
Qed.

(** [strncmp s p (strlen p)] is zero exactly when [p] is a prefix of [s]. *)
Lemma strncmp_prefix p : forall s,
  strncmp s p (strlen p) = 0%Z <-> s = p ++ advance s (strlen p).
Proof.
  unfold strlen.
  induction p as [|y p IH]; intros s; simpl.
  - split; reflexivity.
  - destruct s as [|x s]; simpl.
    + split; discriminate.
    + destruct (Ascii.eqb x y) eqn:E.
      * apply Ascii.eqb_eq in E; subst. rewrite IH. split; intros H.
        -- f_equal. exact H.
        -- inversion H. congruence.
      * split; intros H.
        -- exfalso. exact (uchar_diff _ _ E H).
        -- inversion H; subst. rewrite Ascii.eqb_refl in E. discriminate.
Qed.

Lemma advance_app p : forall r, advance (p ++ r) (strlen p) = r.
Proof. unfold strlen. induction p; simpl; auto. Qed.

Lemma app_inv_head p : forall a b, p ++ a = p ++ b -> a = b.
Proof. induction p; simpl; intros a' b' H; [|inversion H]; auto. Qed.

Lemma length_app a : forall b,
  String.length (a ++ b) = (String.length a + String.length b)%nat.
Proof. induction a; simpl; intros; auto. Qed.

Lemma app_assoc a : forall b c, (a ++ b) ++ c = a ++ (b ++ c).
Proof. induction a; simpl; intros; f_equal; auto. Qed.

Lemma app_nil_r a : a ++ "" = a.
Proof. induction a; simpl; f_equal; auto. Qed.

Lemma starts_with_iff s p :
  strncmp s p (strlen p) = 0%Z <-> exists r, s = p ++ r.
Proof.
  rewrite strncmp_prefix. split.
  - intros H. eexists. exact H.
  - intros [r ->]. now rewrite advance_app.
Qed.

(** [strrchr(s, c)] for a character [c] other than NUL: the part of [s]
    that starts at the last [c], NULL when there is none. *)
Fixpoint strrchr (s : string) (c : ascii) : option string :=
  match s with
  | EmptyString => None
  | String x r =>
      match strrchr r c with
      | Some t => Some t
      | None => if Ascii.eqb x c then Some s else None
      end
  end.

(** The string with every letter in lower case. *)
Fixpoint lower (s : string) : string :=
  match s with
  | EmptyString => EmptyString
  | String x r => String (tolower x) (lower r)
  end.

Lemma strcasecmp_lower a : forall b,
  strcasecmp a b = 0%Z <-> lower a = lower b.
Proof.
  induction a as [|x a IH]; intros [|y b]; simpl; split; intros H;
    try reflexivity; try discriminate.
  - destruct (Ascii.eqb (tolower x) (tolower y)) eqn:E.
    + apply Ascii.eqb_eq in E. apply IH in H. congruence.
    + exfalso. exact (uchar_diff _ _ E H).
  - inversion H as [[T L]]. rewrite T, Ascii.eqb_refl. now apply IH.
Qed.

(** What [strrchr] finds is a suffix with no further [c] behind its
    first character. *)
Lemma strrchr_some s c : forall t,
  strrchr s c = Some t ->
  exists stem e, s = stem ++ String c e /\ t = String c e
                 /\ strrchr e c = None.
Proof.
  induction s as [|x s IH]; intros t; simpl; [discriminate|].
  destruct (strrchr s c) as [u|] eqn:R.
  - intros E. inversion E; subst u.
    destruct (IH t eq_refl) as [stem [e [S [T N]]]].
    exists (String x stem), e. simpl. rewrite <- S. auto.
  - destruct (Ascii.eqb x c) eqn:X; [|discriminate].
    intros E. inversion E. apply Ascii.eqb_eq in X. subst x.
    exists "", s. auto.
Qed.

Lemma strrchr_last stem c e :
  strrchr e c = None -> strrchr (stem ++ String c e) c = Some (String c e).
Proof.
  intros N. induction stem as [|x stem IH]; simpl.
  - now rewrite N, Ascii.eqb_refl.
  - now rewrite IH.
Qed.

End CStr.

(* ------------------------------------------------------------------ *)
(** ** Data model *)

Module Http.
Import CStr.

(** [enum http_method], declared in http.h and not in http.c.  The
    enumerators are kept symbolic; their integer values, which the
    listener masks are tested against, are the section variable
    [method_bit] below. *)
Inductive http_method :=
| M_GET | M_PUT | M_POST | M_DELETE | M_OPTIONS | M_UNKNOWN.

Definition http_method_eqb (a b : http_method) : bool :=
  match a, b with
  | M_GET, M_GET | M_PUT, M_PUT | M_POST, M_POST | M_DELETE, M_DELETE
  | M_OPTIONS, M_OPTIONS | M_UNKNOWN, M_UNKNOWN => true
  | _, _ => false
  end.

Definition MHD_YES : Z := 1.
Definition MHD_NO : Z := 0.

Definition header : Type := (string * string)%type.

(** What the dispatcher sees of a [struct MHD_Connection]: the request
    headers, in the order the transport iterates them, and the code the
    transport gives back when a response is queued on it. *)
Record MHD_Connection := {
  req_headers : list header;
  queue_ret : Z
}.

(** [struct http_listener]; [next] is the tail of the list it sits in. *)
Record http_listener := {
  url : string;
  method : Z;
  cb : Z;
  data : Z
}.

(** [struct http_priv_t], without the two logger handles. *)
Record http_priv_t := {
  help_page : option string;
  listener : list http_listener
}.

(** [struct http_request] (http.h), as [answer_to_connection] fills it. *)
Record http_request := {
  r_connection : MHD_Connection;
  r_method : http_method;
  r_url : string;
  r_body : option string;
  r_bodylen : Z
}.

(** [struct http_response] (http.h), in the field order of the initialiser
    in [http_reply_len]; [headers] is the linked list from its head. *)
Record http_response := {
  connection : MHD_Connection;
  headers : list header;
  status : Z;
  resp_data : option string;
  ndata : nat
}.

(** A [struct MHD_Response] under construction: the buffer it was created
    from and the headers in the order [MHD_add_response_header] got them. *)
Record MHD_Response := {
  rsp_size : nat;
  rsp_data : option string;
  rsp_headers : list header
}.

(** What one callback does to the outside: a handler called with
    [(request, arg, data)], or a response queued with its status. *)
Inductive event :=
| Handler (cb : Z) (request : http_request) (arg : option string) (data : Z)
| Queued (status : Z) (response : MHD_Response).

(** Modelled from the spec: the [STARTS_WITH] macro, defined in common.h
    and not in http.c; section 4.2 reads it as "the request URL starts
    with the route's prefix". *)
Definition STARTS_WITH (s m : string) : bool :=
  (strncmp s m (strlen m) =? 0)%Z.

(** [while ( *arg == '/') arg++;] *)
Fixpoint skip_slashes (arg : string) : string :=
  match arg with
  | String c r => if Ascii.eqb c "/" then skip_slashes r else arg
  | EmptyString => arg
  end.

(** [n] path separators in a row. *)
Fixpoint slashes (n : nat) : string :=
  match n with
  | O => ""
  | S n' => String "/" (slashes n')
  end.

Definition nonempty (s : string) : option string :=
  match s with
  | EmptyString => None
  | _ => Some s
  end.

Section Dispatcher.

(** The integer value of each enumerator of [enum http_method]. *)
Variable method_bit : http_method -> Z.

(** [find_listener]: the result and the handler call it made, if any. *)
Fixpoint find_listener (request : http_request) (lp : list http_listener)
  : Z * list event :=
  match lp with
  | [] => (0%Z, [])
  | l :: next =>
      if STARTS_WITH (r_url request) (url l)
         && negb (Z.land (method l) (method_bit (r_method request)) =? 0)%Z
      then
        let arg := advance (r_url request) (strlen (url l)) in
        match arg with
        | EmptyString => (1%Z, [Handler (cb l) request None (data l)])
        | String c _ =>
            if negb (Ascii.eqb c "/") then find_listener request next
            else
              let arg := skip_slashes arg in
              (1%Z, [Handler (cb l) request (nonempty arg) (data l)])
        end
      else find_listener request next
  end.

(** [http_register_path]; [assert(cb)] aborts on a NULL callback. *)
Definition http_register_path (http : http_priv_t) (url : string)
  (method : Z) (cb : Z) (data : Z) : option http_priv_t :=
  if (cb =? 0)%Z then None
  else
    let lp := {| url := url; method := method; cb := cb; data := data |} in
    Some {| help_page := help_page http; listener := lp :: listener http |}.

(** A run of registrations, in call order. *)
Fixpoint register_all (regs : list http_listener) (http : http_priv_t)
  : option http_priv_t :=
  match regs with
  | [] => Some http
  | r :: rest =>
      match http_register_path http (url r) (method r) (cb r) (data r) with
      | Some http' => register_all rest http'
      | None => None
      end
  end.

(* ------------------------------------------------------------------ *)
(** ** The body accumulator *)

(** Modelled from the spec: the vsb string buffer, declared in vsb.h and
    implemented outside http.c: "a growable byte buffer" that is filled,
    then finished once.  An auto-extending buffer reports no error short
    of memory exhaustion, so the [AZ(...)] checks around these calls
    pass.  [VSB_finish] puts the terminating NUL behind the [VSB_len]
    bytes. *)
Definition vsb : Type := string.
Definition VSB_new_auto : vsb := "".
Definition VSB_bcat (s : vsb) (buf : string) (len : nat) : vsb :=
  s ++ substring 0 len buf.
Definition VSB_putc (s : vsb) (c : ascii) : vsb := s ++ String c "".
Definition VSB_finish (s : vsb) : vsb := s.
Definition VSB_data (s : vsb) : string := s.
Definition VSB_len (s : vsb) : Z := Z.of_nat (String.length s).

(** [struct connection_info_struct]. *)
Record connection_info_struct := {
  req_body : option vsb;
  authed : Z
}.

(** The two settings of [core->config] the dispatcher reads. *)
Record agent_config_t := {
  r_arg : Z;
  auth_token : vsb
}.

(* ------------------------------------------------------------------ *)
(** ** Request headers *)

(** [struct header_finder_t]. *)
Record header_finder_t := {
  hf_header : string;
  hf_value : option string
}.

(** [get_key]: the iterator; [MHD_NO] stops the iteration. *)
Definition get_key (finder : header_finder_t) (key value : string)
  : header_finder_t * Z :=
  if (strcasecmp (hf_header finder) key =? 0)%Z
  then ({| hf_header := hf_header finder; hf_value := Some value |}, MHD_NO)
  else (finder, MHD_YES).

(** [MHD_get_connection_values] over the request headers: the iterator is
    called on each header in turn until it answers [MHD_NO]. *)
Fixpoint MHD_get_connection_values (hs : list header)
  (finder : header_finder_t) : header_finder_t :=
  match hs with
  | [] => finder
  | (key, value) :: rest =>
      let '(finder', go) := get_key finder key value in
      if (go =? MHD_NO)%Z then finder'
      else MHD_get_connection_values rest finder'
  end.

Definition http_get_header (connection : MHD_Connection) (key : string)
  : option string :=
  hf_value (MHD_get_connection_values (req_headers connection)
              {| hf_header := key; hf_value := None |}).

(* ------------------------------------------------------------------ *)
(** ** The auth gate *)

(** [sizeof "Basic"]: five characters and the terminator. *)
Definition sizeof_Basic : nat := 6.

(** [check_auth]: the result (non-zero: credentials are required) and the
    connection state it leaves. *)
Definition check_auth (connection : MHD_Connection) (core : agent_config_t)
  (con_info : connection_info_struct) : Z * connection_info_struct :=
  if (authed con_info =? 0)%Z then
    match http_get_header connection "Authorization" with
    | None => (1%Z, con_info)
    | Some auth =>
        if negb (strncmp auth "Basic " (strlen "Basic ") =? 0)%Z
        then (1%Z, con_info)
        else
          let token := advance auth sizeof_Basic in
          let con_info :=
            if (strcmp (VSB_data (auth_token core)) token =? 0)%Z
            then {| req_body := req_body con_info; authed := 1 |}
            else con_info in
          ((if (authed con_info =? 0)%Z then 1 else 0)%Z, con_info)
    end
  else ((if (authed con_info =? 0)%Z then 1 else 0)%Z, con_info).

(** [parse_method]. *)
Definition parse_method (method : string) : http_method :=
  if (strcmp method "GET" =? 0)%Z then M_GET
  else if (strcmp method "POST" =? 0)%Z then M_POST
  else if (strcmp method "PUT" =? 0)%Z then M_PUT
  else if (strcmp method "DELETE" =? 0)%Z then M_DELETE
  else if (strcmp method "OPTIONS" =? 0)%Z then M_OPTIONS
  else if (strcmp method "HEAD" =? 0)%Z then M_GET
  else M_UNKNOWN.

(* ------------------------------------------------------------------ *)
(** ** Responses *)

Definition MHD_create_response_from_buffer (size : nat)
  (buffer : option string) : MHD_Response :=
  {| rsp_size := size; rsp_data := buffer; rsp_headers := [] |}.

Definition MHD_add_response_header (response : MHD_Response)
  (key value : string) : MHD_Response :=
  {| rsp_size := rsp_size response;
     rsp_data := rsp_data response;
     rsp_headers := (rsp_headers response ++ [(key, value)])%list |}.

(** [http_mkresp]; the object is zeroed when allocated. *)
Definition http_mkresp (conn : MHD_Connection) (status : Z)
  (body : option string) : http_response :=
  {| connection := conn;
     headers := [];
     status := status;
     resp_data := body;
     ndata := match body with Some b => strlen b | None => O end |}.

(** [http_add_header]: the new header becomes the head of the list. *)
Definition http_add_header (resp : http_response) (key value : string)
  : http_response :=
  {| connection := connection resp;
     headers := (key, value) :: headers resp;
     status := status resp;
     resp_data := resp_data resp;
     ndata := ndata resp |}.

(** [for (hdr = resp->headers; hdr; hdr = hdr->next)
       MHD_add_response_header(response, hdr->key, hdr->value);] *)
Fixpoint add_headers (hdr : list header) (response : MHD_Response)
  : MHD_Response :=
  match hdr with
  | [] => response
  | (key, value) :: next =>
      add_headers next (MHD_add_response_header response key value)
  end.

(** [send_response]: what [MHD_queue_response] returned, and the response
    it was given. *)
Definition send_response (resp : http_response) : Z * list event :=
  let response :=
    MHD_create_response_from_buffer (ndata resp) (resp_data resp) in
  let response := add_headers (headers resp) response in
  let response :=
    MHD_add_response_header response "Access-Control-Allow-Headers"
      "Authorization, Origin" in
  let response :=
    MHD_add_response_header response "Access-Control-Allow-Methods"
      "GET, POST, PUT, DELETE, OPTIONS" in
  let origin := http_get_header (connection resp) "Origin" in
  let response :=
    MHD_add_response_header response "Access-Control-Allow-Origin"
      (match origin with Some o => o | None => "*" end) in
  (queue_ret (connection resp), [Queued (status resp) response]).

Definition http_reply_len (conn : MHD_Connection) (status : Z)
  (data : option string) (data_size : nat) : Z * list event :=
  send_response
    {| connection := conn; headers := []; status := status;
       resp_data := data; ndata := data_size |}.

Definition http_reply (conn : MHD_Connection) (status : Z)
  (data : option string) : Z * list event :=
  http_reply_len conn status data
    (match data with Some d => strlen d | None => O end).

Definition auth_text : string :=
  "Authorize, please." ++ nl ++ nl ++
  "If Varnish Agent was installed from packages, the " ++
  "/etc/varnish/agent_secret file contains generated " ++
  "credentials." ++ nl.

(** [send_auth_response]. *)
Definition send_auth_response (connection : MHD_Connection) : list event :=
  let resp := http_mkresp connection 401 (Some auth_text) in
  let resp :=
    http_add_header resp "WWW-Authenticate" "Basic realm=varnish-agent" in
  snd (send_response resp).

(* ------------------------------------------------------------------ *)
(** ** Content types *)

(** [http_content_types], up to its NULL entry. *)
Definition http_content_types : list (string * string) :=
  [(".html", "text/html");
   (".js", "text/javascript");
   (".css", "text/css");
   (".jpg", "image/jpeg");
   (".jpeg", "image/jpeg");
   (".png", "image/png");
   (".gif", "image/gif")].

(** The loop of [http_set_content_type] over the table, from [cp] on. *)
Fixpoint content_type_loop (cp : list (string * string)) (ext : string)
  (resp : http_response) : http_response :=
  match cp with
  | [] => resp
  | (file_ext, content_type) :: next =>
      if (strcmp ext file_ext =? 0)%Z
      then http_add_header resp "Content-Type" content_type
      else content_type_loop next ext resp
  end.

(** [http_set_content_type]. *)
Definition http_set_content_type (resp : http_response) (path : string)
  : http_response :=
  match strrchr path "." with
  | Some ext => content_type_loop http_content_types ext resp
  | None => resp
  end.

(* ------------------------------------------------------------------ *)
(** ** The help page *)

Definition HELP_TEXT : string :=
  "This is the varnish agent." ++ nl ++ nl ++
  "GET requests never modify state" ++ nl ++
  "POST requests are not idempotent, and can modify state" ++ nl ++
  "PUT requests are idempotent, and can modify state" ++ nl ++
  "HEAD requests can be performed on all resources that support GET" ++ nl ++
  nl ++ "The following URLs are bound:" ++ nl ++ nl.

(** A heap block of [size] bytes that holds the C string [chars]. *)
Record cbuf := {
  size : nat;
  chars : string
}.

Definition strdup (s : string) : cbuf :=
  {| size := strlen s + 1; chars := s |}.

(** [realloc] to a size that still holds the string and its terminator
    (the only way [make_help] calls it). *)
Definition realloc (b : cbuf) (n : nat) : cbuf :=
  {| size := n; chars := chars b |}.

(** [strcat] into a heap block: the result and its terminator must fit the
    block; writing past its end is undefined, which is [None]. *)
Definition strcat (dest : cbuf) (src : string) : option cbuf :=
  if (strlen (chars dest) + strlen src + 1 <=? size dest)%nat
  then Some {| size := size dest; chars := chars dest ++ src |}
  else None.

Fixpoint spaces (n : nat) : string :=
  match n with
  | O => ""
  | S n' => String " " (spaces n')
  end.

(** [%-Ns]: the string, left-justified in a field of at least [w]. *)
Definition left_justify (w : nat) (s : string) : string :=
  s ++ spaces (w - strlen s).

(** [snprintf(buf, sizeof(buf), " - %-20s %-3s %-3s %-4s %s\n", ...)]:
    at most [bufsize - 1] characters are stored. *)
Definition snprintf_line (bufsize : nat) (a b c d e : string) : string :=
  substring 0 (bufsize - 1)
    (" - " ++ left_justify 20 a ++ " " ++ left_justify 3 b ++ " " ++
     left_justify 3 c ++ " " ++ left_justify 4 d ++ " " ++ e ++ nl).

Definition has_method (l : http_listener) (m : http_method) : bool :=
  negb (Z.land (method l) (method_bit m) =? 0)%Z.

(** The line [make_help] formats for one listener, in [char buf[512]]. *)
Definition help_line (l : http_listener) : string :=
  snprintf_line 512 (url l)
    (if has_method l M_GET then "GET" else "")
    (if has_method l M_PUT then "PUT" else "")
    (if has_method l M_POST then "POST" else "")
    (if has_method l M_DELETE then "DELETE" else "").

(** The loop of [make_help] over the listener list. *)
Fixpoint make_help_loop (lp : list http_listener) (data : cbuf)
  : option cbuf :=
  match lp with
  | [] => Some data
  | l :: next =>
      let buf := help_line l in
      let data := realloc data (strlen (chars data) + strlen buf + 2) in
      match strcat data buf with
      | Some data => make_help_loop next data
      | None => None
      end
  end.

(** [make_help]. *)
Definition make_help (http : http_priv_t) : option string :=
  let data := strdup HELP_TEXT in
  match make_help_loop (listener http) data with
  | Some data =>
      match strcat data nl with
      | Some data => Some (chars data)
      | None => None
      end
  | None => None
  end.

(* ------------------------------------------------------------------ *)
(** ** The dispatcher *)

(** What one call of [answer_to_connection] leaves behind: its return
    value, [*con_cls], [*upload_data_size], the module's private data and
    the events it caused. *)
Record outcome := {
  ret : Z;
  con_cls : option connection_info_struct;
  upload_data_size : nat;
  priv : http_priv_t;
  events : list event
}.

(** The read-only guard of [answer_to_connection]. *)
Definition read_only_refuses (core : agent_config_t) (m : http_method)
  : bool :=
  negb (r_arg core =? 0)%Z && negb (http_method_eqb m M_GET)
  && negb (http_method_eqb m M_OPTIONS).

(** [answer_to_connection]; [None] is undefined behaviour (the overflow
    in [make_help]). *)
Definition answer_to_connection (core : agent_config_t) (http : http_priv_t)
  (connection : MHD_Connection) (url method : string)
  (upload_data : string) (upload_data_size : nat)
  (con_cls : option connection_info_struct) : option outcome :=
  let request_method := parse_method method in
  match con_cls with
  | None =>
      let con_info := {| req_body := None; authed := 0 |} in
      let '(required, con_info) := check_auth connection core con_info in
      let con_info :=
        if (required =? 0)%Z
        then {| req_body := Some VSB_new_auto; authed := authed con_info |}
        else con_info in
      Some {| ret := MHD_YES; con_cls := Some con_info;
              upload_data_size := upload_data_size;
              priv := http; events := [] |}
  | Some con_info =>
      if read_only_refuses core request_method then
        let '(r, ev) := http_reply connection 405 (Some "Read-only mode") in
        Some {| ret := r; con_cls := Some con_info;
                upload_data_size := upload_data_size;
                priv := http; events := ev |}
      else if negb (upload_data_size =? 0)%nat then
        let con_info :=
          match req_body con_info with
          | Some b =>
              {| req_body := Some (VSB_bcat b upload_data upload_data_size);
                 authed := authed con_info |}
          | None => con_info
          end in
        Some {| ret := MHD_YES; con_cls := Some con_info;
                upload_data_size := 0;
                priv := http; events := [] |}
      else
        let con_info :=
          match req_body con_info with
          | Some b =>
              {| req_body := Some (VSB_finish (VSB_putc b NUL));
                 authed := authed con_info |}
          | None => con_info
          end in
        let request :=
          match req_body con_info with
          | Some b =>
              {| r_connection := connection; r_method := request_method;
                 r_url := url; r_body := Some (VSB_data b);
                 r_bodylen := (VSB_len b - 1)%Z |}
          | None =>
              {| r_connection := connection; r_method := request_method;
                 r_url := url; r_body := None; r_bodylen := 0 |}
          end in
        if http_method_eqb request_method M_OPTIONS then
          let '(r, ev) := http_reply connection 200 None in
          Some {| ret := r; con_cls := Some con_info;
                  upload_data_size := upload_data_size;
                  priv := http; events := ev |}
        else
          let '(required, con_info) := check_auth connection core con_info in
          if negb (required =? 0)%Z then
            Some {| ret := MHD_YES; con_cls := Some con_info;
                    upload_data_size := upload_data_size;
                    priv := http; events := send_auth_response connection |}
          else
            let '(found, ev) := find_listener request (listener http) in
            if negb (found =? 0)%Z then
              Some {| ret := MHD_YES; con_cls := Some con_info;
                      upload_data_size := upload_data_size;
                      priv := http; events := ev |}
            else if http_method_eqb request_method M_GET
                    && (strcmp url "/" =? 0)%Z then
              match
                match help_page http with
                | None => make_help http
                | Some page => Some page
                end
              with
              | Some page =>
                  let '(r, ev') := http_reply connection 200 (Some page) in
                  Some {| ret := r; con_cls := Some con_info;
                          upload_data_size := upload_data_size;
                          priv := {| help_page := Some page;
                                     listener := listener http |};
                          events := ev' |}
              | None => None
              end
            else
              let '(r, ev') := http_reply connection 500 (Some "Failed") in
              Some {| ret := r; con_cls := Some con_info;
                      upload_data_size := upload_data_size;
                      priv := http; events := ev' |}
  end.

(** [request_completed]: the state and its buffer are freed, and
    [*con_cls] is NULL afterwards. *)
Definition request_completed (con_cls : option connection_info_struct)
  : option connection_info_struct :=
  match con_cls with
  | Some _ => None
  | None => None
  end.

(* ------------------------------------------------------------------ *)
(** ** Callback sequences *)

(** The arguments of one call of [answer_to_connection], the state
    aside: the connection, the URL and method, and the [upload_data_size]
    bytes offered at [upload_data]. *)
Record callback := {
  cb_connection : MHD_Connection;
  cb_url : string;
  cb_method : string;
  cb_upload_data : string;
  cb_upload_data_size : nat
}.

(** Successive calls on one [con_cls] slot: the state and private data
    each call leaves are those of the next, and the events add up. *)
Fixpoint callbacks (core : agent_config_t) (calls : list callback)
  (http : http_priv_t) (cls : option connection_info_struct)
  : option (http_priv_t * option connection_info_struct * list event) :=
  match calls with
  | [] => Some (http, cls, [])
  | c :: rest =>
      match answer_to_connection core http (cb_connection c) (cb_url c)
              (cb_method c) (cb_upload_data c) (cb_upload_data_size c) cls with
      | Some o =>
          match callbacks core rest (priv o) (con_cls o) with
          | Some (h, cls', ev) => Some (h, cls', (events o ++ ev)%list)
          | None => None
          end
      | None => None
      end
  end.

(** A call that offers the bytes of [chunk]. *)
Definition chunk_call (connection : MHD_Connection) (url method : string)
  (chunk : string) : callback :=
  {| cb_connection := connection; cb_url := url; cb_method := method;
     cb_upload_data := chunk; cb_upload_data_size := strlen chunk |}.

(** Modelled from the spec: the order in which the transport
    (libmicrohttpd, not part of http.c) calls back for one request,
    sections 4.3 and 5: a first call (on no state), one call per body
    chunk in arrival order, and a finalize call with no unconsumed
    bytes. *)
Definition request_calls (connection : MHD_Connection) (url method : string)
  (chunks : list string) : list callback :=
  (chunk_call connection url method ""
     :: map (chunk_call connection url method) chunks
     ++ [chunk_call connection url method ""])%list.

Definition serve_request (core : agent_config_t) (http : http_priv_t)
  (connection : MHD_Connection) (url method : string)
  (chunks : list string)
  : option (http_priv_t * option connection_info_struct * list event) :=
  callbacks core (request_calls connection url method chunks) http None.

(** The chunks, end to end. *)
Fixpoint join (chunks : list string) : string :=
  match chunks with
  | [] => ""
  | c :: rest => c ++ join rest
  end.

(* ------------------------------------------------------------------ *)
(** ** Notions used in the statements *)

(** The three conditions of section 4.2 on a route, a method and a URL. *)
Definition method_included (l : http_listener) (m : http_method) : Prop :=
  Z.land (method l) (method_bit m) <> 0%Z.

Definition route_matches (l : http_listener) (m : http_method) (u : string)
  : Prop :=
  method_included l m /\
  exists rest, u = url l ++ rest /\
               (rest = "" \/ exists rest', rest = String "/" rest').

(** The path handed to the handler: what follows the prefix and its
    separators, absent when nothing does. *)
Definition remainder (l : http_listener) (u : string) : option string :=
  nonempty (skip_slashes (advance u (strlen (url l)))).

(** The header value that satisfies the gate: the scheme, one space, and
    the configured token. *)
Definition basic_credentials (core : agent_config_t) : string :=
  "Basic " ++ VSB_data (auth_token core).

(** A run of [http_add_header] calls, in call order. *)
Definition add_all (hs : list header) (resp : http_response)
  : http_response :=
  fold_left (fun r h => http_add_header r (fst h) (snd h)) hs resp.

(** The three headers [send_response] always attaches, last. *)
Definition cors_headers (connection : MHD_Connection) : list header :=
  [("Access-Control-Allow-Headers", "Authorization, Origin");
   ("Access-Control-Allow-Methods", "GET, POST, PUT, DELETE, OPTIONS");
   ("Access-Control-Allow-Origin",
    match http_get_header connection "Origin" with
    | Some o => o
    | None => "*"
    end)].

(** The state once the body buffer, if there is one, got its NUL and was
    finished. *)
Definition finalized (st : connection_info_struct) : connection_info_struct :=
  match req_body st with
  | Some b =>
      {| req_body := Some (VSB_finish (VSB_putc b NUL)); authed := authed st |}
  | None => st
  end.

(** The state once a chunk of [len] bytes was added to the body buffer,
    if there is one. *)
Definition appended (st : connection_info_struct) (buf : string) (len : nat)
  : connection_info_struct :=
  match req_body st with
  | Some b => {| req_body := Some (VSB_bcat b buf len); authed := authed st |}
  | None => st
  end.

(** The request [answer_to_connection] builds from a finalized state. *)
Definition request_of (connection : MHD_Connection) (m : http_method)
  (url : string) (st : connection_info_struct) : http_request :=
  match req_body st with
  | Some b =>
      {| r_connection := connection; r_method := m; r_url := url;
         r_body := Some (VSB_data b); r_bodylen := (VSB_len b - 1)%Z |}
  | None =>
      {| r_connection := connection; r_method := m; r_url := url;
         r_body := None; r_bodylen := 0 |}
  end.

(** The event of an [http_reply]: the status, the body, no header but the
    three CORS headers. *)
Definition reply_event (connection : MHD_Connection) (status : Z)
  (body : option string) : event :=
  Queued status
    {| rsp_size := match body with Some b => strlen b | None => O end;
       rsp_data := body;
       rsp_headers := cors_headers connection |}.

(** The event of [send_auth_response]. *)
Definition auth_event (connection : MHD_Connection) : event :=
  Queued 401
    {| rsp_size := strlen auth_text;
       rsp_data := Some auth_text;
       rsp_headers :=
         ("WWW-Authenticate", "Basic realm=varnish-agent")
           :: cors_headers connection |}.

(* ------------------------------------------------------------------ *)
(** ** Listener matching *)

Lemma skip_slashes_run n : forall tail,
  (forall t, tail <> String "/" t) ->
  skip_slashes (slashes n ++ tail) = tail.
Proof.
  induction n as [|n IH]; intros tail Ht; simpl.
  - destruct tail as [|c t]; simpl; auto.
    destruct (Ascii.eqb c "/") eqn:E; auto.
    apply Ascii.eqb_eq in E; subst. now destruct (Ht t).
  - now apply IH.
Qed.

Lemma route_matches_dec l m u : {route_matches l m u} + {~ route_matches l m u}.
Proof.
  unfold route_matches, method_included.
  destruct (Z.eq_dec (Z.land (method l) (method_bit m)) 0)
    as [E|E]; [right; tauto|].
  destruct (Z.eq_dec (strncmp u (url l) (strlen (url l))) 0) as [P|P].
  - apply strncmp_prefix in P.
    destruct (advance u (strlen (url l))) as [|c t] eqn:A.
    + left. split; auto. exists "". auto.
    + destruct (Ascii.ascii_dec c "/") as [->|C].
      * left. split; auto. exists (String "/" t). eauto.
      * right. intros [_ [rest [U H]]].
        rewrite U, advance_app in A. subst rest.
        destruct H as [H|[t' H]]; [discriminate|]. inversion H. contradiction.
  - right. intros [_ [rest [U _]]]. apply P, starts_with_iff. eauto.
Qed.

(** One turn of the loop on a route that matches: its handler is called
    and the loop ends. *)
Lemma find_listener_hit request l next :
  route_matches l (r_method request) (r_url request) ->
  find_listener request (l :: next) =
    (1%Z, [Handler (cb l) request (remainder l (r_url request)) (data l)]).
Proof.
  intros [M [rest [U H]]]. unfold method_included in M. simpl.
  unfold STARTS_WITH, remainder.
  assert (P : strncmp (r_url request) (url l) (strlen (url l)) = 0%Z)
    by (apply starts_with_iff; eauto).
  rewrite P. apply Z.eqb_neq in M. rewrite M. simpl.
  rewrite U, advance_app.
  destruct H as [->|[t ->]]; reflexivity.
Qed.

(** One turn of the loop on a route that does not: the loop goes on. *)
Lemma find_listener_miss request l next :
  ~ route_matches l (r_method request) (r_url request) ->
  find_listener request (l :: next) = find_listener request next.
Proof.
  intros N. simpl. unfold STARTS_WITH.
  destruct (strncmp (r_url request) (url l) (strlen (url l)) =? 0)%Z eqn:P;
    simpl; auto.
  destruct (Z.land (method l) (method_bit (r_method request)) =? 0)%Z eqn:M;
    simpl; auto.
  apply Z.eqb_eq in P. apply Z.eqb_neq in M.
  pose proof P as P'. apply strncmp_prefix in P'.
  destruct (advance (r_url request) (strlen (url l))) as [|c t] eqn:A.
  - exfalso. apply N. split; auto. exists "". auto.
  - destruct (Ascii.eqb c "/") eqn:C; simpl; auto.
    apply Ascii.eqb_eq in C; subst c.
    exfalso. apply N. split; auto. exists (String "/" t). eauto.
Qed.

(** The loop stops at the first route that matches. *)
Lemma find_listener_first request pre : forall l post,
  (forall p, In p pre -> ~ route_matches p (r_method request) (r_url request)) ->
  route_matches l (r_method request) (r_url request) ->
  find_listener request (pre ++ l :: post)%list =
    (1%Z, [Handler (cb l) request (remainder l (r_url request)) (data l)]).
Proof.
  induction pre as [|p pre IH]; intros l post Hpre Hl.
  - now apply find_listener_hit.
  - change ((p :: pre) ++ l :: post)%list with (p :: (pre ++ l :: post))%list.
    rewrite find_listener_miss by (apply Hpre; now left).
    apply IH; auto. intros q Hq. apply Hpre. now right.
Qed.

Lemma find_listener_none request lp :
  (forall p, In p lp -> ~ route_matches p (r_method request) (r_url request)) ->
  find_listener request lp = (0%Z, []).
Proof.
  induction lp as [|p lp IH]; intros H; [reflexivity|].
  rewrite find_listener_miss by (apply H; now left).
  apply IH. intros q Hq. apply H. now right.
Qed.

Lemma find_listener_found request lp :
  fst (find_listener request lp) = 1%Z <->
  exists l, In l lp /\ route_matches l (r_method request) (r_url request).
Proof.
  induction lp as [|p lp IH].
  - simpl. split; [discriminate|]. intros [l [[] _]].
  - destruct (route_matches_dec p (r_method request) (r_url request)) as [Y|N].
    + rewrite find_listener_hit by exact Y. simpl. split; [|reflexivity].
      intros _. exists p. split; [now left | exact Y].
    + rewrite find_listener_miss by exact N. rewrite IH. split.
      * intros [l [I M]]. exists l. split; auto. now right.
      * intros [l [[->|I] M]]; [contradiction|]. eauto.
Qed.

(** Every outcome of the loop: a miss, or one call of a listed handler. *)
Lemma find_listener_cases request lp :
  find_listener request lp = (0%Z, []) \/
  exists l, In l lp /\
    find_listener request lp =
      (1%Z, [Handler (cb l) request (remainder l (r_url request)) (data l)]).
Proof.
  induction lp as [|p lp IH]; [now left|].
  destruct (route_matches_dec p (r_method request) (r_url request)) as [Y|N].
  - right. exists p. split; [now left|]. now apply find_listener_hit.
  - rewrite find_listener_miss by exact N.
    destruct IH as [IH|[l [I E]]]; [now left|].
    right. exists l. split; [now right | exact E].
Qed.

Lemma register_all_listener regs : forall http,
  (forall r, In r regs -> cb r <> 0%Z) ->
  register_all regs http =
    Some {| help_page := help_page http;
            listener := (rev regs ++ listener http)%list |}.
Proof.
  induction regs as [|r regs IH]; intros http H; simpl.
  - now destruct http.
  - unfold http_register_path.
    assert (C : cb r <> 0%Z) by (apply H; now left).
    apply Z.eqb_neq in C. rewrite C.
    rewrite IH by (intros q Hq; apply H; now right).
    simpl. rewrite <- List.app_assoc. simpl. now destruct r.
Qed.

(** C1: a route matches exactly when its method mask includes the
    request's method, the URL starts with its prefix, and the character
    after the prefix is absent or a path separator; the handler of a
    matching route gets what follows the separators, or nothing when
    nothing follows.  So /foobar never matches the prefix /foo, and both
    /foo and /foo/ match it with an absent remainder. *)
Theorem find_listener_route_match :
  forall (request : http_request) (l : http_listener),
    let m := r_method request in
    let u := r_url request in
    (fst (find_listener request [l]) = 1%Z <-> route_matches l m u)
    /\ (forall lp, fst (find_listener request lp) = 1%Z <->
                   exists l', In l' lp /\ route_matches l' m u)
    /\ (route_matches l m u ->
        forall next, find_listener request (l :: next) =
          (1%Z, [Handler (cb l) request (remainder l u) (data l)]))
    /\ (~ route_matches l m u ->
        forall next,
          find_listener request (l :: next) = find_listener request next)
    /\ (forall n tail, (forall t, tail <> String "/" t) ->
        u = url l ++ slashes (S n) ++ tail ->
        remainder l u = nonempty tail)
    /\ (url l = "/foo" -> u = "/foobar" ->
        ~ route_matches l m u /\ find_listener request [l] = (0%Z, []))
    /\ (url l = "/foo" -> method_included l m -> u = "/foo" \/ u = "/foo/" ->
        find_listener request [l] =
          (1%Z, [Handler (cb l) request None (data l)])).
Proof.
  intros request l m u. subst m u.
  split; [|split; [|split; [|split; [|split; [|split]]]]].
  - rewrite find_listener_found. split.
    + intros [l' [[->|[]] M]]. exact M.
    + intros M. exists l. split; [now left | exact M].
  - intros lp. apply find_listener_found.
  - intros M next. now apply find_listener_hit.
  - intros N next. now apply find_listener_miss.
  - intros n tail Ht U. unfold remainder. rewrite U, advance_app.
    now rewrite skip_slashes_run.
  - intros L U.
    assert (N : ~ route_matches l (r_method request) (r_url request)).
    { intros [_ [rest [E H]]]. rewrite U, L in E. simpl in E.
      inversion E; subst rest.
      destruct H as [H|[t H]]; discriminate. }
    split; [exact N|]. now rewrite find_listener_miss.
  - intros L M U.
    assert (R : route_matches l (r_method request) (r_url request)).
    { split; [exact M|]. rewrite L.
      destruct U as [-> | ->]; [exists "" | exists "/"]; simpl; eauto. }
    rewrite find_listener_hit by exact R. unfold remainder. rewrite L.
    destruct U as [-> | ->]; reflexivity.
Qed.

(** C2: registration puts the new route at the head of the list and the
    matching loop runs from the head and stops at the first match.  With
    R1 (prefix /a) registered before R2 (prefix /a/b), whatever was
    registered before, between or (without matching) after them, a
    request to /a/b/x whose method R2 accepts calls the handler of R2
    with the path x, and no other handler. *)
Theorem register_then_first_match_wins :
  forall (http0 : http_priv_t) (old mid later : list http_listener)
         (r1 r2 : http_listener) (request : http_request),
    url r1 = "/a" -> url r2 = "/a/b" -> r_url request = "/a/b/x" ->
    method_included r2 (r_method request) ->
    (forall r, In r (old ++ r1 :: mid ++ r2 :: later)%list -> cb r <> 0%Z) ->
    (forall r, In r later ->
               ~ route_matches r (r_method request) (r_url request)) ->
    exists http,
      register_all (old ++ r1 :: mid ++ r2 :: later)%list http0 = Some http
      /\ listener http =
           (rev later ++ r2 :: rev mid ++ r1 :: rev old ++ listener http0)%list
      /\ find_listener request (listener http) =
           (1%Z, [Handler (cb r2) request (Some "x") (data r2)]).
Proof.
  intros http0 old mid later r1 r2 request U1 U2 U M Hcb Hlater.
  eexists. split; [apply register_all_listener; exact Hcb|].
  assert (L : (rev (old ++ r1 :: mid ++ r2 :: later) ++ listener http0 =
               rev later ++ r2 :: rev mid ++ r1 :: rev old ++ listener http0)%list).
  { rewrite rev_app_distr. simpl. rewrite rev_app_distr. simpl.
    repeat rewrite <- List.app_assoc. simpl.
    repeat rewrite <- List.app_assoc. reflexivity. }
  simpl. rewrite L. split; [reflexivity|].
  assert (R : route_matches r2 (r_method request) (r_url request)).
  { split; [exact M|]. exists "/x". rewrite U, U2. split; eauto. }
  rewrite find_listener_first.
  - unfold remainder. now rewrite U, U2.
  - intros p Hp. apply Hlater. now apply in_rev.
  - exact R.
Qed.

(* ------------------------------------------------------------------ *)
(** ** The auth gate and the header list *)

(** The header lookup takes the first header whose name equals the key
    up to letter case. *)
Lemma http_get_header_cons key k v hs q :
  http_get_header {| req_headers := (k, v) :: hs; queue_ret := q |} key =
    if (strcasecmp key k =? 0)%Z then Some v
    else http_get_header {| req_headers := hs; queue_ret := q |} key.
Proof.
  unfold http_get_header. simpl. unfold get_key. simpl.
  destruct (strcasecmp key k =? 0)%Z; reflexivity.
Qed.

(** Every way [check_auth] can go. *)
Lemma check_auth_cases connection core st :
  (authed st <> 0%Z /\ check_auth connection core st = (0%Z, st))
  \/ (authed st = 0%Z /\
      http_get_header connection "Authorization" =
        Some (basic_credentials core) /\
      check_auth connection core st =
        (0%Z, {| req_body := req_body st; authed := 1 |}))
  \/ (authed st = 0%Z /\
      http_get_header connection "Authorization" <>
        Some (basic_credentials core) /\
      check_auth connection core st = (1%Z, st)).
Proof.
  unfold check_auth, basic_credentials.
  destruct (authed st =? 0)%Z eqn:A.
  2:{ left. apply Z.eqb_neq in A. auto. }
  apply Z.eqb_eq in A. right.
  destruct (http_get_header connection "Authorization") as [auth|].
  2:{ right. repeat split; auto. discriminate. }
  destruct (strncmp auth "Basic " (strlen "Basic ") =? 0)%Z eqn:P;
    cbn -[advance strcmp].
  - apply Z.eqb_eq, strncmp_prefix in P.
    change (strlen "Basic ") with sizeof_Basic in P.
    destruct (strcmp (VSB_data (auth_token core)) (advance auth sizeof_Basic)
              =? 0)%Z eqn:T; cbn -[advance strcmp].
    + left. apply Z.eqb_eq, strcmp_eq in T.
      repeat split; auto. rewrite T. now f_equal.
    + right. rewrite A. repeat split; auto.
      intros E. inversion E as [E']. rewrite E' in T. simpl in T.
      rewrite strcmp_refl in T. discriminate.
  - right. repeat split; auto.
    intros E. inversion E as [E']. rewrite E' in P.
    change (strlen "Basic ") with 6%nat in P. simpl in P. discriminate.
Qed.

Lemma check_auth_authed connection core st :
  authed st <> 0%Z -> check_auth connection core st = (0%Z, st).
Proof.
  intros A. destruct (check_auth_cases connection core st)
    as [[_ E]|[[Z _]|[Z _]]]; auto; contradiction.
Qed.

(** C10: on a state that is not yet authenticated, the gate sets the flag
    and reports no credentials required exactly when the Authorization
    header is the six bytes of "Basic " followed by the configured token,
    byte for byte.  A missing header, another spelling of the scheme, a
    second space after it or another token leave the state as it was and
    report that credentials are required. *)
Theorem check_auth_accepts_exactly :
  forall (connection : MHD_Connection) (core : agent_config_t)
         (st : connection_info_struct),
    authed st = 0%Z ->
    let auth := http_get_header connection "Authorization" in
    let token := VSB_data (auth_token core) in
    (check_auth connection core st =
       (0%Z, {| req_body := req_body st; authed := 1 |})
     <-> auth = Some ("Basic " ++ token))
    /\ (authed (snd (check_auth connection core st)) <> 0%Z
        <-> auth = Some ("Basic " ++ token))
    /\ (auth <> Some ("Basic " ++ token) ->
        check_auth connection core st = (1%Z, st))
    /\ (auth = None -> check_auth connection core st = (1%Z, st))
    /\ (auth = Some ("basic " ++ token) ->
        check_auth connection core st = (1%Z, st))
    /\ (auth = Some ("BASIC " ++ token) ->
        check_auth connection core st = (1%Z, st))
    /\ (auth = Some ("Basic  " ++ token) ->
        check_auth connection core st = (1%Z, st))
    /\ (auth = Some ("Basic" ++ token) ->
        check_auth connection core st = (1%Z, st))
    /\ (forall other, other <> token -> auth = Some ("Basic " ++ other) ->
        check_auth connection core st = (1%Z, st)).
Proof.
  intros connection core st A auth token. subst auth token.
  assert (R : http_get_header connection "Authorization" <>
              Some (basic_credentials core) ->
              check_auth connection core st = (1%Z, st)).
  { intros N. destruct (check_auth_cases connection core st)
      as [[Z _]|[[_ [E _]]|[_ [_ E]]]]; auto; contradiction. }
  unfold basic_credentials in R.
  split; [|split; [|split; [exact R|]]].
  - destruct (check_auth_cases connection core st)
      as [[Z _]|[[_ [E C]]|[_ [N C]]]]; [contradiction| |].
    + rewrite C. split; auto.
    + rewrite C. split; [discriminate|]. intros E. now destruct N.
  - destruct (check_auth_cases connection core st)
      as [[Z _]|[[_ [E C]]|[_ [N C]]]]; [contradiction| |].
    + rewrite C. simpl. split; auto. discriminate.
    + rewrite C. simpl. split; [contradiction|]. intros E. now destruct N.
  - repeat split.
    + intros E. apply R. rewrite E. discriminate.
    + intros E. apply R. rewrite E. simpl. discriminate.
    + intros E. apply R. rewrite E. simpl. discriminate.
    + intros E. apply R. rewrite E. simpl. intros H. inversion H as [H'].
      apply (f_equal String.length) in H'. simpl in H'. lia.
    + intros E. apply R. rewrite E. intros H. inversion H as [H'].
      apply (f_equal String.length) in H'. simpl in H'. lia.
    + intros other O E. apply R. rewrite E. intros H. inversion H as [H'].
      now apply O.
Qed.

(* ------------------------------------------------------------------ *)
(** ** Response headers *)

Lemma add_headers_app hdr : forall response,
  add_headers hdr response =
    {| rsp_size := rsp_size response; rsp_data := rsp_data response;
       rsp_headers := (rsp_headers response ++ hdr)%list |}.
Proof.
  induction hdr as [|[k v] hdr IH]; intros response; simpl.
  - rewrite List.app_nil_r. now destruct response.
  - rewrite IH. simpl. now rewrite <- List.app_assoc.
Qed.

Lemma send_response_eq resp :
  send_response resp =
    (queue_ret (connection resp),
     [Queued (status resp)
        {| rsp_size := ndata resp; rsp_data := resp_data resp;
           rsp_headers := (headers resp ++ cors_headers (connection resp))%list |}]).
Proof.
  unfold send_response. rewrite add_headers_app.
  unfold MHD_add_response_header, cors_headers. simpl.
  repeat rewrite <- List.app_assoc. reflexivity.
Qed.

Lemma add_all_headers hs : forall resp,
  headers (add_all hs resp) = (rev hs ++ headers resp)%list
  /\ connection (add_all hs resp) = connection resp
  /\ status (add_all hs resp) = status resp
  /\ resp_data (add_all hs resp) = resp_data resp
  /\ ndata (add_all hs resp) = ndata resp.
Proof.
  unfold add_all.
  induction hs as [|[k v] hs IH]; intros resp; simpl; [auto|].
  destruct (IH (http_add_header resp k v)) as [H [C [S [D N]]]].
  rewrite H, C, S, D, N. simpl.
  rewrite <- List.app_assoc. auto.
Qed.

(** C9, as the code has it: [http_add_header] puts the pair at the head
    of the response's header list, so the transport gets the headers in
    the reverse of the order they were added, before the three CORS
    headers; every pair added appears, duplicates included. *)
Theorem http_add_header_prepends :
  forall (resp : http_response) (key value : string) (hs : list header),
    headers (http_add_header resp key value) = (key, value) :: headers resp
    /\ headers (add_all hs resp) = (rev hs ++ headers resp)%list
    /\ snd (send_response (add_all hs resp)) =
         [Queued (status resp)
            {| rsp_size := ndata resp; rsp_data := resp_data resp;
               rsp_headers :=
                 (rev hs ++ headers resp ++ cors_headers (connection resp))%list |}]
    /\ (forall h, In h hs -> In h (headers (add_all hs resp)))
    /\ length (headers (add_all hs resp)) =
         (length hs + length (headers resp))%nat.
Proof.
  intros resp key value hs.
  destruct (add_all_headers hs resp) as [H [C [S [D N]]]].
  split; [reflexivity|]. split; [exact H|]. split; [|split].
  - rewrite send_response_eq, H, C, S, D, N. simpl.
    now rewrite <- List.app_assoc.
  - intros h I. rewrite H. apply in_or_app. left. now apply in_rev in I.
  - rewrite H, List.length_app, List.length_rev. reflexivity.
Qed.

(* ------------------------------------------------------------------ *)
(** ** The dispatcher, branch by branch *)

Lemma http_reply_eq connection status body :
  http_reply connection status body =
    (queue_ret connection, [reply_event connection status body]).
Proof.
  unfold http_reply, http_reply_len. rewrite send_response_eq. reflexivity.
Qed.

Lemma send_auth_response_eq connection :
  send_auth_response connection = [auth_event connection].
Proof.
  unfold send_auth_response. rewrite send_response_eq. reflexivity.
Qed.

Lemma authed_finalized st : authed (finalized st) = authed st.
Proof. unfold finalized. now destruct (req_body st). Qed.

Lemma check_auth_finalized connection core st :
  check_auth connection core (finalized st) =
    (fst (check_auth connection core st),
     finalized (snd (check_auth connection core st))).
Proof.
  pose proof (authed_finalized st) as F.
  destruct (check_auth_cases connection core st)
    as [[A E]|[[A [H E]]|[A [H E]]]];
  destruct (check_auth_cases connection core (finalized st))
    as [[A' E']|[[A' [H' E']]|[A' [H' E']]]];
  rewrite E, E'; cbn [fst snd]; try congruence.
  clear. now destruct st as [[b|] a].
Qed.

(** The first call on a connection: the state is created, the body
    buffer with it when the gate is already satisfied; no response. *)
Lemma answer_first_call core http connection url method upload_data n :
  answer_to_connection core http connection url method upload_data n None =
    Some {| ret := MHD_YES;
            con_cls :=
              Some (if (fst (check_auth connection core
                               {| req_body := None; authed := 0 |}) =? 0)%Z
                    then {| req_body := Some VSB_new_auto; authed := 1 |}
                    else {| req_body := None; authed := 0 |});
            upload_data_size := n; priv := http; events := [] |}.
Proof.
  unfold answer_to_connection.
  destruct (check_auth_cases connection core {| req_body := None; authed := 0 |})
    as [[A _]|[[_ [_ E]]|[_ [_ E]]]]; [now destruct A| |]; rewrite E;
    reflexivity.
Qed.

(** The read-only guard comes first on every later call. *)
Lemma answer_refused core http connection url method upload_data n st :
  read_only_refuses core (parse_method method) = true ->
  answer_to_connection core http connection url method upload_data n (Some st)
  = Some {| ret := queue_ret connection; con_cls := Some st;
            upload_data_size := n; priv := http;
            events := [reply_event connection 405 (Some "Read-only mode")] |}.
Proof.
  intros R. unfold answer_to_connection. rewrite R, http_reply_eq.
  reflexivity.
Qed.

(** A body-chunk call that the guard lets through. *)
Lemma answer_body_chunk core http connection url method upload_data n st :
  read_only_refuses core (parse_method method) = false ->
  n <> O ->
  answer_to_connection core http connection url method upload_data n (Some st)
  = Some {| ret := MHD_YES; con_cls := Some (appended st upload_data n);
            upload_data_size := 0; priv := http; events := [] |}.
Proof.
  intros R N. unfold answer_to_connection. rewrite R.
  apply Nat.eqb_neq in N. rewrite N. reflexivity.
Qed.

(** A finalize call that the guard lets through, in the order of the
    source: preflight, gate, listeners, help page, failure. *)
Lemma answer_finalize core http connection url method upload_data st :
  read_only_refuses core (parse_method method) = false ->
  answer_to_connection core http connection url method upload_data 0 (Some st)
  = let m := parse_method method in
    let request := request_of connection m url (finalized st) in
    let ci := finalized (snd (check_auth connection core st)) in
    if http_method_eqb m M_OPTIONS then
      Some {| ret := queue_ret connection; con_cls := Some (finalized st);
              upload_data_size := 0; priv := http;
              events := [reply_event connection 200 None] |}
    else if negb (fst (check_auth connection core st) =? 0)%Z then
      Some {| ret := MHD_YES; con_cls := Some ci;
              upload_data_size := 0; priv := http;
              events := [auth_event connection] |}
    else if negb (fst (find_listener request (listener http)) =? 0)%Z then
      Some {| ret := MHD_YES; con_cls := Some ci;
              upload_data_size := 0; priv := http;
              events := snd (find_listener request (listener http)) |}
    else if http_method_eqb m M_GET && (strcmp url "/" =? 0)%Z then
      match match help_page http with
            | None => make_help http
            | Some page => Some page
            end with
      | Some page =>
          Some {| ret := queue_ret connection; con_cls := Some ci;
                  upload_data_size := 0;
                  priv := {| help_page := Some page;
                             listener := listener http |};
                  events := [reply_event connection 200 (Some page)] |}
      | None => None
      end
    else
      Some {| ret := queue_ret connection; con_cls := Some ci;
              upload_data_size := 0; priv := http;
              events := [reply_event connection 500 (Some "Failed")] |}.
Proof.
  intros R. unfold answer_to_connection. rewrite R.
  cbn [Nat.eqb negb].
  change (match req_body st with
          | Some b =>
              {| req_body := Some (VSB_finish (VSB_putc b NUL));
                 authed := authed st |}
          | None => st
          end) with (finalized st).
  change (match req_body (finalized st) with
          | Some b =>
              {| r_connection := connection; r_method := parse_method method;
                 r_url := url; r_body := Some (VSB_data b);
                 r_bodylen := (VSB_len b - 1)%Z |}
          | None =>
              {| r_connection := connection; r_method := parse_method method;
                 r_url := url; r_body := None; r_bodylen := 0 |}
          end)
    with (request_of connection (parse_method method) url (finalized st)).
  cbv zeta. rewrite check_auth_finalized, send_auth_response_eq.
  repeat rewrite http_reply_eq.
  destruct (http_method_eqb (parse_method method) M_OPTIONS); [reflexivity|].
  destruct (check_auth connection core st) as [required st']. cbn [fst snd].
  destruct (negb (required =? 0)%Z); [reflexivity|].
  destruct (find_listener
              (request_of connection (parse_method method) url (finalized st))
              (listener http)) as [found ev]. cbn [fst snd].
  destruct (negb (found =? 0)%Z); [reflexivity|].
  destruct (http_method_eqb (parse_method method) M_GET && (strcmp url "/" =? 0)%Z);
    [|reflexivity].
  destruct (match help_page http with
            | Some page => Some page
            | None => make_help http
            end); reflexivity.
Qed.

Lemma http_method_eqb_eq a b : http_method_eqb a b = true <-> a = b.
Proof. destruct a, b; simpl; split; congruence. Qed.

Lemma http_method_eqb_neq a b : http_method_eqb a b = false <-> a <> b.
Proof. destruct a, b; simpl; split; congruence. Qed.

Lemma parse_method_OPTIONS method :
  parse_method method = M_OPTIONS <-> method = "OPTIONS".
Proof.
  unfold parse_method. split.
  - destruct (strcmp method "GET" =? 0)%Z; [discriminate|].
    destruct (strcmp method "POST" =? 0)%Z; [discriminate|].
    destruct (strcmp method "PUT" =? 0)%Z; [discriminate|].
    destruct (strcmp method "DELETE" =? 0)%Z; [discriminate|].
    destruct (strcmp method "OPTIONS" =? 0)%Z eqn:E.
    + intros _. now apply Z.eqb_eq, strcmp_eq in E.
    + destruct (strcmp method "HEAD" =? 0)%Z; discriminate.
  - intros ->. reflexivity.
Qed.

Lemma parse_method_GET method :
  parse_method method = M_GET <-> method = "GET" \/ method = "HEAD".
Proof.
  unfold parse_method. split.
  - destruct (strcmp method "GET" =? 0)%Z eqn:E.
    { intros _. left. now apply Z.eqb_eq, strcmp_eq in E. }
    destruct (strcmp method "POST" =? 0)%Z; [discriminate|].
    destruct (strcmp method "PUT" =? 0)%Z; [discriminate|].
    destruct (strcmp method "DELETE" =? 0)%Z; [discriminate|].
    destruct (strcmp method "OPTIONS" =? 0)%Z; [discriminate|].
    destruct (strcmp method "HEAD" =? 0)%Z eqn:H; [|discriminate].
    intros _. right. now apply Z.eqb_eq, strcmp_eq in H.
  - intros [-> | ->]; reflexivity.
Qed.

(** The guard refuses exactly the methods other than GET, HEAD and
    OPTIONS, and only in read-only mode. *)
Lemma read_only_refuses_iff core method :
  read_only_refuses core (parse_method method) = true <->
  r_arg core <> 0%Z /\ method <> "GET" /\ method <> "HEAD"
  /\ method <> "OPTIONS".
Proof.
  unfold read_only_refuses.
  rewrite !andb_true_iff, !negb_true_iff, Z.eqb_neq, !http_method_eqb_neq.
  rewrite parse_method_GET, parse_method_OPTIONS. tauto.
Qed.

Lemma read_only_passes_OPTIONS core m :
  http_method_eqb m M_OPTIONS = true -> read_only_refuses core m = false.
Proof.
  intros H. unfold read_only_refuses. rewrite H. simpl.
  now rewrite andb_false_r.
Qed.

Lemma authed_appended st buf len : authed (appended st buf len) = authed st.
Proof. unfold appended. now destruct (req_body st). Qed.

Lemma substring_all s : substring 0 (String.length s) s = s.
Proof. induction s as [|c s IH]; simpl; [|rewrite IH]; reflexivity. Qed.

(** C3, as the code has it: on a body-chunk call (the state exists and
    the transport offers a non-zero count of bytes) the read-only guard
    is tried first.  When it lets the call through, the bytes are added
    to the body buffer if there is one, all of them are reported
    consumed, and the call returns "continue" with no response, whatever
    the method.  When it refuses (read-only mode, method other than GET,
    HEAD, OPTIONS), a 405 response is queued, the state is untouched and
    the bytes stay unconsumed. *)
Theorem body_chunk_call :
  forall (core : agent_config_t) (http : http_priv_t)
         (connection : MHD_Connection) (url method upload_data : string)
         (n : nat) (st : connection_info_struct),
    n <> O ->
    (read_only_refuses core (parse_method method) = false ->
     answer_to_connection core http connection url method upload_data n
       (Some st)
     = Some {| ret := MHD_YES; con_cls := Some (appended st upload_data n);
               upload_data_size := 0; priv := http; events := [] |})
    /\ (read_only_refuses core (parse_method method) = true ->
        answer_to_connection core http connection url method upload_data n
          (Some st)
        = Some {| ret := queue_ret connection; con_cls := Some st;
                  upload_data_size := n; priv := http;
                  events :=
                    [reply_event connection 405 (Some "Read-only mode")] |})
    /\ (forall b, req_body st = Some b ->
        req_body (appended st upload_data n) =
          Some (b ++ substring 0 n upload_data))
    /\ (req_body st = None -> appended st upload_data n = st)
    /\ authed (appended st upload_data n) = authed st
    /\ (read_only_refuses core (parse_method method) = true <->
        r_arg core <> 0%Z /\ method <> "GET" /\ method <> "HEAD"
        /\ method <> "OPTIONS").
Proof.
  intros core http connection url method upload_data n st N.
  split; [|split; [|split; [|split; [|split]]]].
  - intros R. now apply answer_body_chunk.
  - intros R. now apply answer_refused.
  - intros b B. unfold appended. rewrite B. reflexivity.
  - intros B. unfold appended. now rewrite B.
  - apply authed_appended.
  - apply read_only_refuses_iff.
Qed.

(** C5: a finalize call whose method parses to OPTIONS is never refused
    by the read-only guard and is answered 200 with no body, before the
    gate is consulted: whatever the headers and the state, the call
    queues that one response and leaves the authenticated flag as it
    was; so does a whole OPTIONS request on a new connection. *)
Theorem options_preflight :
  forall (core : agent_config_t) (http : http_priv_t)
         (connection : MHD_Connection) (url method upload_data : string)
         (st : connection_info_struct),
    parse_method method = M_OPTIONS ->
    read_only_refuses core (parse_method method) = false
    /\ answer_to_connection core http connection url method upload_data 0
         (Some st)
       = Some {| ret := queue_ret connection; con_cls := Some (finalized st);
                 upload_data_size := 0; priv := http;
                 events :=
                   [Queued 200
                      {| rsp_size := 0; rsp_data := None;
                         rsp_headers := cors_headers connection |}] |}
    /\ authed (finalized st) = authed st
    /\ exists st',
         serve_request core http connection url method [] =
           Some (http, Some st',
                 [Queued 200
                    {| rsp_size := 0; rsp_data := None;
                       rsp_headers := cors_headers connection |}]).
Proof.
  intros core http connection url method upload_data st M.
  assert (E : http_method_eqb (parse_method method) M_OPTIONS = true)
    by now apply http_method_eqb_eq.
  pose proof (read_only_passes_OPTIONS core _ E) as R.
  split; [exact R|]. split; [|split].
  - rewrite answer_finalize by exact R. cbv zeta. now rewrite E.
  - apply authed_finalized.
  - unfold serve_request, request_calls. cbn [map app callbacks chunk_call
      cb_connection cb_url cb_method cb_upload_data cb_upload_data_size strlen
      String.length].
    rewrite answer_first_call. cbn [priv con_cls events].
    rewrite answer_finalize by exact R. cbv zeta. rewrite E.
    cbn [priv con_cls events app]. eexists. reflexivity.
Qed.

(** C6, as the code has it: on a finalize call that the read-only guard
    lets through and whose method is not OPTIONS, a gate that reports
    credentials required (the state is not authenticated and the
    Authorization header is not "Basic " followed by the token) has the
    dispatcher queue a 401 with the explanatory body and the header
    WWW-Authenticate: Basic realm=varnish-agent, and nothing else: no
    listener is tried, no handler called. *)
Theorem unauthorized_finalize :
  forall (core : agent_config_t) (http : http_priv_t)
         (connection : MHD_Connection) (url method upload_data : string)
         (st : connection_info_struct),
    read_only_refuses core (parse_method method) = false ->
    parse_method method <> M_OPTIONS ->
    fst (check_auth connection core st) <> 0%Z ->
    answer_to_connection core http connection url method upload_data 0
      (Some st)
    = Some {| ret := MHD_YES; con_cls := Some (finalized st);
              upload_data_size := 0; priv := http;
              events :=
                [Queued 401
                   {| rsp_size := strlen auth_text;
                      rsp_data := Some auth_text;
                      rsp_headers :=
                        ("WWW-Authenticate", "Basic realm=varnish-agent")
                          :: cors_headers connection |}] |}
    /\ authed st = 0%Z
    /\ http_get_header connection "Authorization" <>
         Some (basic_credentials core).
Proof.
  intros core http connection url method upload_data st R M A.
  apply http_method_eqb_neq in M.
  rewrite answer_finalize by exact R. cbv zeta. rewrite M.
  destruct (check_auth_cases connection core st)
    as [[_ E]|[[_ [_ E]]|[Z [H E]]]]; rewrite E in *; cbn [fst snd] in *;
    try now destruct A.
  auto.
Qed.

(* ------------------------------------------------------------------ *)
(** ** Sequences of callbacks *)

Lemma callbacks_app core xs : forall ys http cls,
  callbacks core (xs ++ ys)%list http cls =
    match callbacks core xs http cls with
    | Some (h, c, ev) =>
        match callbacks core ys h c with
        | Some (h', c', ev') => Some (h', c', (ev ++ ev')%list)
        | None => None
        end
    | None => None
    end.
Proof.
  induction xs as [|x xs IH]; intros ys http cls;
    cbn [callbacks app].
  - destruct (callbacks core ys http cls) as [[[h c] ev]|]; reflexivity.
  - destruct (answer_to_connection core http (cb_connection x) (cb_url x)
                (cb_method x) (cb_upload_data x) (cb_upload_data_size x) cls)
      as [o|]; [|reflexivity].
    rewrite IH.
    destruct (callbacks core xs (priv o) (con_cls o)) as [[[h c] ev]|];
      [|reflexivity].
    destruct (callbacks core ys h c) as [[[h' c'] ev']|]; [|reflexivity].
    now rewrite List.app_assoc.
Qed.

(** Body-chunk calls that the guard lets through fill the buffer in
    arrival order and cause no event. *)
Lemma callbacks_chunks core connection url method chunks :
  forall http b a,
    read_only_refuses core (parse_method method) = false ->
    (forall c, In c chunks -> c <> "") ->
    callbacks core (map (chunk_call connection url method) chunks) http
      (Some {| req_body := Some b; authed := a |})
    = Some (http, Some {| req_body := Some (b ++ join chunks); authed := a |},
            []).
Proof.
  induction chunks as [|c chunks IH]; intros http b a R N;
    cbn [callbacks map join chunk_call cb_connection cb_url cb_method
         cb_upload_data cb_upload_data_size].
  - now rewrite app_nil_r.
  - rewrite answer_body_chunk; [|exact R|].
    2:{ assert (C : c <> "") by (apply N; now left).
        destruct c; [now destruct C | discriminate]. }
    cbn [priv con_cls events]. unfold appended, VSB_bcat, strlen.
    cbn [req_body authed]. rewrite substring_all.
    rewrite IH; [|exact R|intros x X; apply N; now right].
    now rewrite app_assoc.
Qed.




(** The completion hook drops the state: a call after it starts anew. *)
Lemma request_completed_clears cls : request_completed cls = None.
Proof. now destruct cls. Qed.

Lemma callbacks_chunks_no_buffer core connection url method chunks :
  forall http a,
    read_only_refuses core (parse_method method) = false ->
    (forall c, In c chunks -> c <> "") ->
    callbacks core (map (chunk_call connection url method) chunks) http
      (Some {| req_body := None; authed := a |})
    = Some (http, Some {| req_body := None; authed := a |}, []).
Proof.
  induction chunks as [|c chunks IH]; intros http a R N;
    cbn [callbacks map chunk_call cb_connection cb_url cb_method
         cb_upload_data cb_upload_data_size]; [reflexivity|].
  rewrite answer_body_chunk; [|exact R|].
  2:{ assert (C : c <> "") by (apply N; now left).
      destruct c; [now destruct C | discriminate]. }
  cbn [priv con_cls events]. unfold appended. cbn [req_body].
  rewrite IH; [reflexivity|exact R|intros x X; apply N; now right].
Qed.


Lemma request_of_url connection m u st :
  r_url (request_of connection m u st) = u
  /\ r_method (request_of connection m u st) = m.
Proof. unfold request_of. now destruct (req_body st). Qed.

Lemma get_end s c : forall t,
  String.get (String.length s) (s ++ String c t) = Some c.
Proof. induction s as [|x s IH]; intros t; simpl; auto. Qed.

(** C7: on a connection whose first call satisfied the gate (so that the
    body buffer exists), the bytes offered by the successive body-chunk
    calls are put together in arrival order; on the finalize call the
    handler of the first matching route gets a request whose body is
    those bytes followed by a NUL and whose bodylen is their number.
    With the chunks "ab", "cd", "ef" the body is "abcdef". *)
Theorem body_chunks_assembled :
  forall (core : agent_config_t) (http : http_priv_t)
         (connection : MHD_Connection) (url method : string)
         (chunks : list string) (pre post : list http_listener)
         (l : http_listener),
    fst (check_auth connection core {| req_body := None; authed := 0 |})
      = 0%Z ->
    (forall c, In c chunks -> c <> "") ->
    read_only_refuses core (parse_method method) = false ->
    parse_method method <> M_OPTIONS ->
    listener http = (pre ++ l :: post)%list ->
    (forall p, In p pre -> ~ route_matches p (parse_method method) url) ->
    route_matches l (parse_method method) url ->
    let body := join chunks in
    let request :=
      {| r_connection := connection; r_method := parse_method method;
         r_url := url; r_body := Some (body ++ String NUL "");
         r_bodylen := Z.of_nat (String.length body) |} in
    serve_request core http connection url method chunks =
      Some (http,
            Some {| req_body := Some (body ++ String NUL ""); authed := 1 |},
            [Handler (cb l) request (remainder l url) (data l)])
    /\ String.get (String.length body) (body ++ String NUL "") = Some NUL.
Proof.
  intros core http connection url method chunks pre post l
    A N R M L Hpre Hl body request.
  split; [|apply get_end].
  apply http_method_eqb_neq in M.
  unfold serve_request, request_calls.
  cbn [callbacks chunk_call cb_connection cb_url cb_method cb_upload_data
       cb_upload_data_size].
  rewrite answer_first_call, A. cbn [Z.eqb priv con_cls events].
  rewrite callbacks_app, callbacks_chunks by assumption.
  cbn [callbacks chunk_call cb_connection cb_url cb_method cb_upload_data
       cb_upload_data_size strlen String.length].
  rewrite answer_finalize by exact R. cbv zeta. rewrite M.
  rewrite check_auth_authed by (simpl; discriminate).
  cbn [fst snd negb Z.eqb]. rewrite L.
  rewrite find_listener_first;
    rewrite ?(proj1 (request_of_url _ _ _ _)), ?(proj2 (request_of_url _ _ _ _));
    auto.
  cbn [fst snd negb Z.eqb priv con_cls events app].
  unfold finalized, request_of, VSB_finish, VSB_putc, VSB_data, VSB_len,
    VSB_new_auto.
  cbn [req_body authed append]. fold body.
  replace (Z.of_nat (String.length (body ++ String NUL "")) - 1)%Z
    with (Z.of_nat (String.length body)).
  - reflexivity.
  - rewrite length_app. simpl. lia.
Qed.

(* ------------------------------------------------------------------ *)
(** ** The help page *)

(** The loop leaves a block with room for the string, its terminator
    and one more byte, as soon as it ran once. *)
Lemma make_help_loop_some lp : forall data,
  lp <> [] ->
  make_help_loop lp data =
    Some {| size := strlen (chars data ++ join (map help_line lp)) + 2;
            chars := chars data ++ join (map help_line lp) |}.
Proof.
  induction lp as [|l lp IH]; intros data N; [now destruct N|].
  cbn [make_help_loop map join]. unfold strcat, realloc. cbn [size chars].
  destruct (Nat.leb_spec
              (strlen (chars data) + strlen (help_line l) + 1)
              (strlen (chars data) + strlen (help_line l) + 2)) as [_|H];
    [|lia].
  destruct lp as [|l' lp].
  - cbn [make_help_loop map join]. rewrite app_nil_r.
    unfold strlen. now rewrite length_app.
  - rewrite IH by discriminate. cbn [size chars].
    now rewrite app_assoc.
Qed.

(** With at least one listener the page is the preamble, one line per
    listener in list order, and a newline. *)
Lemma make_help_some http :
  listener http <> [] ->
  make_help http =
    Some (HELP_TEXT ++ join (map help_line (listener http)) ++ nl).
Proof.
  intros N. unfold make_help. rewrite make_help_loop_some by exact N.
  unfold strcat, strdup. cbn [size chars].
  set (page := HELP_TEXT ++ join (map help_line (listener http))).
  destruct (Nat.leb_spec (strlen page + strlen nl + 1) (strlen page + 2))
    as [_|H].
  - subst page. now rewrite app_assoc.
  - simpl in H. lia.
Qed.

(** With no listener the final [strcat] has no room for its terminator:
    the block from [strdup] is one byte short. *)
Lemma make_help_no_listener page :
  make_help {| help_page := page; listener := [] |} = None.
Proof. reflexivity. Qed.

(** C8, as the code has it: on a finalize call that the read-only guard
    lets through, whose method is not OPTIONS, that passes the gate and
    that no listener matches, a GET (or HEAD) of exactly "/" is answered
    200 with the help page: the cached page if there is one, else, with
    at least one listener, the preamble followed by one line per
    listener and a newline, which is cached from then on.  Any other
    method or URL is answered 500 "Failed". *)
Theorem no_route_fallback :
  forall (core : agent_config_t) (http : http_priv_t)
         (connection : MHD_Connection) (url method upload_data : string)
         (st : connection_info_struct),
    read_only_refuses core (parse_method method) = false ->
    parse_method method <> M_OPTIONS ->
    fst (check_auth connection core st) = 0%Z ->
    (forall l, In l (listener http) ->
               ~ route_matches l (parse_method method) url) ->
    let ci := finalized (snd (check_auth connection core st)) in
    let answer :=
      answer_to_connection core http connection url method upload_data 0
        (Some st) in
    (parse_method method = M_GET -> url = "/" ->
     forall page, help_page http = Some page ->
       answer = Some {| ret := queue_ret connection; con_cls := Some ci;
                        upload_data_size := 0; priv := http;
                        events :=
                          [reply_event connection 200 (Some page)] |})
    /\ (parse_method method = M_GET -> url = "/" ->
        help_page http = None -> listener http <> [] ->
        let page := HELP_TEXT ++ join (map help_line (listener http)) ++ nl in
        make_help http = Some page
        /\ answer = Some {| ret := queue_ret connection; con_cls := Some ci;
                            upload_data_size := 0;
                            priv := {| help_page := Some page;
                                       listener := listener http |};
                            events :=
                              [reply_event connection 200 (Some page)] |})
    /\ (~ (parse_method method = M_GET /\ url = "/") ->
        answer = Some {| ret := queue_ret connection; con_cls := Some ci;
                         upload_data_size := 0; priv := http;
                         events :=
                           [reply_event connection 500 (Some "Failed")] |}).
Proof.
  intros core http connection url method upload_data st R M A Hno ci answer.
  apply http_method_eqb_neq in M.
  assert (F : find_listener
                (request_of connection (parse_method method) url (finalized st))
                (listener http) = (0%Z, [])).
  { apply find_listener_none. intros p Hp.
    rewrite (proj1 (request_of_url _ _ _ _)), (proj2 (request_of_url _ _ _ _)).
    now apply Hno. }
  assert (E : answer =
    if http_method_eqb (parse_method method) M_GET && (strcmp url "/" =? 0)%Z
    then
      match match help_page http with
            | None => make_help http
            | Some page => Some page
            end with
      | Some page =>
          Some {| ret := queue_ret connection; con_cls := Some ci;
                  upload_data_size := 0;
                  priv := {| help_page := Some page;
                             listener := listener http |};
                  events := [reply_event connection 200 (Some page)] |}
      | None => None
      end
    else
      Some {| ret := queue_ret connection; con_cls := Some ci;
              upload_data_size := 0; priv := http;
              events := [reply_event connection 500 (Some "Failed")] |}).
  { subst answer ci. rewrite answer_finalize by exact R. cbv zeta.
    rewrite M, A, F. reflexivity. }
  rewrite E. clear E. split; [|split].
  - intros G U page P. subst url. rewrite G, P. simpl. f_equal.
    destruct http as [hp ls]. simpl in P. now subst hp.
  - intros G U P N page. split; [now apply make_help_some|].
    subst url. rewrite G, P, make_help_some by exact N. reflexivity.
  - intros N.
    destruct (http_method_eqb (parse_method method) M_GET) eqn:G;
      [|reflexivity].
    destruct (strcmp url "/" =? 0)%Z eqn:U; [|reflexivity].
    exfalso. apply N. split.
    + now apply http_method_eqb_eq.
    + now apply Z.eqb_eq, strcmp_eq in U.
Qed.

(* ------------------------------------------------------------------ *)
(** ** Header lookup *)

Lemma get_connection_values_find key hs :
  hf_value (MHD_get_connection_values hs
              {| hf_header := key; hf_value := None |}) =
    option_map snd
      (find (fun h => (strcasecmp key (fst h) =? 0)%Z) hs).
Proof.
  induction hs as [|[k v] hs IH]; [reflexivity|].
  cbn [MHD_get_connection_values find fst]. unfold get_key.
  cbn [hf_header hf_value].
  destruct (strcasecmp key k =? 0)%Z; [reflexivity | exact IH].
Qed.

Lemma lower_match key k :
  (strcasecmp key k =? 0)%Z = true <-> lower k = lower key.
Proof. rewrite Z.eqb_eq, strcasecmp_lower. split; congruence. Qed.

Lemma http_get_header_first connection key pre k v post :
  req_headers connection = (pre ++ (k, v) :: post)%list ->
  (forall k' v', In (k', v') pre -> lower k' <> lower key) ->
  lower k = lower key ->
  http_get_header connection key = Some v.
Proof.
  unfold http_get_header. intros -> Hpre L.
  rewrite get_connection_values_find.
  induction pre as [|[k' v'] pre IH]; simpl.
  - apply lower_match in L. now rewrite L.
  - destruct (strcasecmp key k' =? 0)%Z eqn:E.
    + apply lower_match in E. exfalso. apply (Hpre k' v'); auto. now left.
    + apply IH. intros k'' v'' I. apply (Hpre k'' v''). now right.
Qed.

(** X1: [http_get_header] returns the value of the first header whose
    name equals the key up to letter case, and NULL exactly when no
    header has such a name; the letter case of the key does not matter
    either. *)
Theorem http_get_header_first_match :
  forall (connection : MHD_Connection) (key : string),
    (http_get_header connection key = None <->
     forall k v, In (k, v) (req_headers connection) -> lower k <> lower key)
    /\ (forall pre k v post,
          req_headers connection = (pre ++ (k, v) :: post)%list ->
          (forall k' v', In (k', v') pre -> lower k' <> lower key) ->
          lower k = lower key ->
          http_get_header connection key = Some v)
    /\ (forall key', lower key' = lower key ->
          http_get_header connection key' = http_get_header connection key).
Proof.
  intros connection key. unfold http_get_header.
  split; [|split].
  - rewrite get_connection_values_find.
    induction (req_headers connection) as [|[k v] hs IH]; simpl.
    + split; [intros _ k v [] | reflexivity].
    + destruct (strcasecmp key k =? 0)%Z eqn:E.
      * apply lower_match in E. split; [discriminate|].
        intros H. exfalso. apply (H k v); auto.
      * split.
        -- intros N k' v' [I|I].
           ++ inversion I; subst. intros L. apply lower_match in L. congruence.
           ++ apply (proj1 IH N k' v' I).
        -- intros H. apply IH. intros k' v' I. apply (H k' v'). now right.
  - intros pre k v post P Hpre L.
    exact (http_get_header_first connection key pre k v post P Hpre L).
  - intros key' L. rewrite !get_connection_values_find.
    induction (req_headers connection) as [|[k v] hs IH]; simpl; [reflexivity|].
    destruct (strcasecmp key k =? 0)%Z eqn:E.
    + apply lower_match in E.
      assert (E' : (strcasecmp key' k =? 0)%Z = true)
        by (apply lower_match; congruence).
      now rewrite E'.
    + assert (E' : (strcasecmp key' k =? 0)%Z = false).
      { destruct (strcasecmp key' k =? 0)%Z eqn:X; [|reflexivity].
        apply lower_match in X.
        assert (Y : (strcasecmp key k =? 0)%Z = true)
          by (apply lower_match; congruence).
        congruence. }
      now rewrite E'.
Qed.

(* ------------------------------------------------------------------ *)
(** ** Content types *)

Lemma table_ext_last_dot ext t stem :
  In (ext, t) http_content_types ->
  strrchr (stem ++ ext) "." = Some ext.
Proof.
  unfold http_content_types. intros I.
  repeat (destruct I as [I|I];
          [inversion I; subst; now apply strrchr_last|]).
  destruct I.
Qed.

(** X2: when the path ends in one of the seven extensions of the table
    (the text from the last dot on), [http_set_content_type] adds
    exactly one header, Content-Type with the type the table gives,
    at the head of the response's headers. *)
Theorem content_type_of_extension :
  forall (resp : http_response) (stem ext t : string),
    In (ext, t) http_content_types ->
    http_set_content_type resp (stem ++ ext) =
      http_add_header resp "Content-Type" t
    /\ headers (http_set_content_type resp (stem ++ ext)) =
         ("Content-Type", t) :: headers resp.
Proof.
  intros resp stem ext t I.
  assert (E : http_set_content_type resp (stem ++ ext) =
              http_add_header resp "Content-Type" t).
  { unfold http_set_content_type.
    rewrite (table_ext_last_dot _ _ stem I).
    unfold http_content_types in I.
    repeat (destruct I as [I|I]; [inversion I; subst; reflexivity|]).
    destruct I. }
  split; [exact E|]. now rewrite E.
Qed.

(** X3: a path with no dot, or whose text from the last dot on is not
    literally one of the table's extensions (another extension, other
    letter case, a dot in a directory name), leaves the response as it
    was: no Content-Type header is added. *)
Theorem content_type_unknown_extension :
  forall (resp : http_response) (path : string),
    (forall stem ext t, In (ext, t) http_content_types ->
                        path <> stem ++ ext) ->
    http_set_content_type resp path = resp.
Proof.
  intros resp path N. unfold http_set_content_type.
  destruct (strrchr path ".") as [ext|] eqn:R; [|reflexivity].
  destruct (strrchr_some _ _ _ R) as [stem [e [P [T _]]]].
  assert (M : forall t, ~ In (ext, t) http_content_types).
  { intros t I. apply (N stem ext t I). now rewrite T. }
  revert M. generalize http_content_types as cp.
  induction cp as [|[file_ext content_type] cp IH]; intros M; simpl;
    [reflexivity|].
  destruct (strcmp ext file_ext =? 0)%Z eqn:E.
  - apply Z.eqb_eq, strcmp_eq in E. subst file_ext.
    exfalso. apply (M content_type). now left.
  - apply IH. intros t I. apply (M t). now right.
Qed.

(* ------------------------------------------------------------------ *)
(** ** What a handler is given *)

Lemma skip_slashes_shape s :
  skip_slashes s = "" \/
  exists c t, skip_slashes s = String c t /\ c <> "/"%char.
Proof.
  induction s as [|x s IH]; simpl; [now left|].
  destruct (Ascii.eqb x "/") eqn:E; [exact IH|].
  right. exists x, s. split; [reflexivity|]. now apply Ascii.eqb_neq.
Qed.

(** X4: [find_listener] calls at most one handler, that of a listener of
    the list which matches the request, with the request itself; the
    path it passes is either NULL or a non-empty string that does not
    start with a path separator; it returns 1 exactly when it called a
    handler and 0 otherwise. *)
Theorem find_listener_argument :
  forall (request : http_request) (lp : list http_listener),
    find_listener request lp = (0%Z, [])
    \/ exists l arg,
         In l lp
         /\ route_matches l (r_method request) (r_url request)
         /\ find_listener request lp =
              (1%Z, [Handler (cb l) request arg (data l)])
         /\ (arg = None \/
             exists c t, arg = Some (String c t) /\ c <> "/"%char).
Proof.
  intros request lp. induction lp as [|p lp IH]; [now left|].
  destruct (route_matches_dec p (r_method request) (r_url request)) as [Y|N].
  - right. exists p, (remainder p (r_url request)).
    split; [now left|]. split; [exact Y|].
    split; [now apply find_listener_hit|].
    unfold remainder.
    destruct (skip_slashes_shape
                (advance (r_url request) (strlen (url p))))
      as [E|[c [t [E C]]]]; rewrite E; simpl; eauto.
  - rewrite find_listener_miss by exact N.
    destruct IH as [IH|[l [arg [I [M [E A]]]]]]; [now left|].
    right. exists l, arg. split; [now right|]. auto.
Qed.

(* ------------------------------------------------------------------ *)
(** ** More on the gate *)

(** X5: [check_auth] is idempotent: a second call on the state the first
    one left, with the same connection, gives the same answer and the
    same state.  It answers 0 or 1, 0 exactly when it leaves the state
    authenticated, and it never touches the body buffer. *)
Theorem check_auth_idempotent :
  forall (connection : MHD_Connection) (core : agent_config_t)
         (st : connection_info_struct),
    let r := check_auth connection core st in
    check_auth connection core (snd r) = r
    /\ req_body (snd r) = req_body st
    /\ (fst r = 0%Z \/ fst r = 1%Z)
    /\ (fst r = 0%Z <-> authed (snd r) <> 0%Z).
Proof.
  intros connection core st r. subst r.
  destruct (check_auth_cases connection core st)
    as [[A E]|[[A [H E]]|[A [H E]]]]; rewrite E; cbn [fst snd].
  - rewrite E. repeat split; auto.
  - rewrite check_auth_authed by (simpl; discriminate).
    repeat split; auto. simpl. discriminate.
  - rewrite E. repeat split; auto; try discriminate.
    intros N. now destruct N.
Qed.

(** X6: only the first header named Authorization (in any letter case)
    counts: the gate decides as if that header were the only one, so
    valid credentials in a later Authorization header are ignored. *)
Theorem check_auth_first_header :
  forall (connection : MHD_Connection) (core : agent_config_t)
         (st : connection_info_struct) pre k v post,
    req_headers connection = (pre ++ (k, v) :: post)%list ->
    (forall k' v', In (k', v') pre -> lower k' <> lower "Authorization") ->
    lower k = lower "Authorization" ->
    check_auth connection core st =
      check_auth {| req_headers := [(k, v)];
                    queue_ret := queue_ret connection |} core st
    /\ (authed st = 0%Z -> v <> "Basic " ++ VSB_data (auth_token core) ->
        check_auth connection core st = (1%Z, st)).
Proof.
  intros connection core st pre k v post P Hpre L.
  pose proof (http_get_header_first connection "Authorization"
                pre k v post P Hpre L) as G.
  assert (G' : http_get_header {| req_headers := [(k, v)];
                                  queue_ret := queue_ret connection |}
                 "Authorization" = Some v).
  { rewrite http_get_header_cons.
    now rewrite (proj2 (lower_match "Authorization" k) L). }
  split.
  - unfold check_auth. now rewrite G, G'.
  - intros A V.
    destruct (check_auth_cases connection core st)
      as [[Z _]|[[_ [H _]]|[_ [_ E]]]]; [contradiction| |exact E].
    rewrite G in H. inversion H. now destruct V.
Qed.

(* ------------------------------------------------------------------ *)
(** ** Every outcome of a call *)

(** What a call on an existing state can cause and leave in the private
    data: nothing, one reply of the dispatcher's own, or one handler
    call; the private data change only when the help page is built. *)
Lemma answer_existing_cases core http connection url method upload_data n
  st o :
  answer_to_connection core http connection url method upload_data n (Some st)
    = Some o ->
  ((events o = [] /\ n <> O
    /\ read_only_refuses core (parse_method method) = false)
   \/ (exists status body,
         events o = [reply_event connection status body]
         /\ (status = 200 \/ status = 405 \/ status = 500)%Z)
   \/ events o = [auth_event connection]
   \/ (exists l arg,
         In l (listener http) /\ n = O
         /\ events o =
              [Handler (cb l)
                 (request_of connection (parse_method method) url
                    (finalized st)) arg (data l)]))
  /\ (priv o = http
      \/ (help_page http = None
          /\ exists page, make_help http = Some page
                          /\ priv o = {| help_page := Some page;
                                         listener := listener http |})).
Proof.
  destruct (read_only_refuses core (parse_method method)) eqn:R.
  { rewrite answer_refused by exact R. intros E. inversion E; subst o.
    cbn [events priv]. split; [|now left].
    right; left. exists 405%Z, (Some "Read-only mode"). auto. }
  destruct n as [|n].
  2:{ rewrite answer_body_chunk by (auto; discriminate).
      intros E. inversion E; subst o. cbn [events priv].
      split; [|now left]. left. repeat split; auto. }
  rewrite answer_finalize by exact R. cbv zeta.
  destruct (http_method_eqb (parse_method method) M_OPTIONS).
  { intros E. inversion E; subst o. cbn [events priv]. split; [|now left].
    right; left. exists 200%Z, None. auto. }
  destruct (negb (fst (check_auth connection core st) =? 0)%Z).
  { intros E. inversion E; subst o. cbn [events priv]. split; [|now left].
    right; right; now left. }
  destruct (find_listener_cases
              (request_of connection (parse_method method) url (finalized st))
              (listener http)) as [F|[l [I F]]]; rewrite F;
    cbn [fst snd negb Z.eqb].
  2:{ intros E. inversion E; subst o. cbn [events priv]. split; [|now left].
      right; right; right. eexists l, _. repeat split; auto. }
  destruct (http_method_eqb (parse_method method) M_GET && (strcmp url "/" =? 0)%Z).
  - destruct (help_page http) as [page|] eqn:P.
    + intros E. inversion E; subst o. cbn [events priv]. split.
      * right; left. exists 200%Z, (Some page). auto.
      * left. destruct http as [hp ls]. simpl in P. now subst hp.
    + destruct (make_help http) as [page|] eqn:H; [|discriminate].
      intros E. inversion E; subst o. cbn [events priv]. split.
      * right; left. exists 200%Z, (Some page). auto.
      * right. split; [reflexivity|]. exists page. auto.
  - intros E. inversion E; subst o. cbn [events priv]. split; [|now left].
    right; left. exists 500%Z, (Some "Failed"). auto.
Qed.


(** X8: every response the dispatcher queues itself has status 200, 401,
    405 or 500, and its header list ends with the three CORS headers,
    Access-Control-Allow-Origin carrying the request's Origin header
    when there is one and "*" otherwise; only the 401 has a header
    before them. *)
Theorem queued_responses_carry_cors :
  forall (core : agent_config_t) (http : http_priv_t)
         (connection : MHD_Connection) (url method upload_data : string)
         (n : nat) (cls : option connection_info_struct) (o : outcome)
         (code : Z) (r : MHD_Response),
    answer_to_connection core http connection url method upload_data n cls
      = Some o ->
    In (Queued code r) (events o) ->
    (code = 200 \/ code = 401 \/ code = 405 \/ code = 500)%Z
    /\ exists hs,
         rsp_headers r =
           (hs ++
            [("Access-Control-Allow-Headers", "Authorization, Origin");
             ("Access-Control-Allow-Methods",
              "GET, POST, PUT, DELETE, OPTIONS");
             ("Access-Control-Allow-Origin",
              match http_get_header connection "Origin" with
              | Some origin => origin
              | None => "*"
              end)])%list
         /\ (hs = [] \/
             (code = 401%Z /\
              hs = [("WWW-Authenticate", "Basic realm=varnish-agent")])).
Proof.
  intros core http connection url method upload_data n [st|] o code r E I.
  - destruct (answer_existing_cases _ _ _ _ _ _ _ _ _ E)
      as [[[V _]|[[status [body [V S]]]|[V|[l [arg [_ [_ V]]]]]]] _];
      rewrite V in I.
    + destruct I.
    + destruct I as [I|[]]. unfold reply_event in I. inversion I; subst.
      split; [tauto|]. exists []. auto.
    + destruct I as [I|[]]. unfold auth_event in I. inversion I; subst.
      split; [tauto|]. eexists. split; [|right; split; reflexivity].
      reflexivity.
    + destruct I as [I|[]]. discriminate I.
  - rewrite answer_first_call in E. inversion E; subst o. destruct I.
Qed.

(** X9: the first call on a connection queues nothing and returns
    "continue"; it creates the state, authenticated and with an empty
    body buffer when the Authorization header already satisfies the
    gate, unauthenticated and with no buffer at all otherwise. *)
Theorem first_call_creates_state :
  forall (core : agent_config_t) (http : http_priv_t)
         (connection : MHD_Connection) (url method upload_data : string)
         (n : nat),
    (http_get_header connection "Authorization" =
       Some (basic_credentials core) ->
     answer_to_connection core http connection url method upload_data n None
     = Some {| ret := MHD_YES;
               con_cls := Some {| req_body := Some ""; authed := 1 |};
               upload_data_size := n; priv := http; events := [] |})
    /\ (http_get_header connection "Authorization" <>
          Some (basic_credentials core) ->
        answer_to_connection core http connection url method upload_data n
          None
        = Some {| ret := MHD_YES;
                  con_cls := Some {| req_body := None; authed := 0 |};
                  upload_data_size := n; priv := http; events := [] |}).
Proof.
  intros core http connection url method upload_data n.
  rewrite answer_first_call.
  destruct (check_auth_cases connection core
              {| req_body := None; authed := 0 |})
    as [[A _]|[[_ [H E]]|[_ [H E]]]]; [now destruct A| |];
    rewrite E; cbn [fst Z.eqb]; split; intros G; try reflexivity;
    congruence.
Qed.

(** X10: a request whose first call does not satisfy the gate never gets
    a body buffer: whatever state the slot held before the completion
    hook ran (an authenticated one too), the body chunks are dropped,
    the request ends in the single 401 response, no handler is called,
    and the state is left unauthenticated and without buffer. *)
Theorem unauthenticated_request_drops_body :
  forall (core : agent_config_t) (http : http_priv_t)
         (connection : MHD_Connection) (url method : string)
         (chunks : list string) (before : option connection_info_struct),
    http_get_header connection "Authorization" <>
      Some (basic_credentials core) ->
    read_only_refuses core (parse_method method) = false ->
    parse_method method <> M_OPTIONS ->
    (forall c, In c chunks -> c <> "") ->
    callbacks core (request_calls connection url method chunks) http
      (request_completed before)
    = Some (http, Some {| req_body := None; authed := 0 |},
            [auth_event connection]).
Proof.
  intros core http connection url method chunks before H R M N.
  rewrite request_completed_clears. unfold request_calls.
  cbn [callbacks chunk_call cb_connection cb_url cb_method cb_upload_data
       cb_upload_data_size].
  destruct (check_auth_cases connection core
              {| req_body := None; authed := 0 |})
    as [[A _]|[[_ [G _]]|[_ [_ E]]]]; [now destruct A|contradiction|].
  rewrite answer_first_call, E. cbn [fst Z.eqb priv con_cls events].
  rewrite callbacks_app, callbacks_chunks_no_buffer by assumption.
  cbn [callbacks chunk_call cb_connection cb_url cb_method cb_upload_data
       cb_upload_data_size strlen String.length].
  rewrite answer_finalize by exact R. cbv zeta.
  apply http_method_eqb_neq in M. rewrite M, E. reflexivity.
Qed.

(* ------------------------------------------------------------------ *)
(** ** Read-only mode *)

Lemma callbacks_refused core connection url method chunks :
  forall http st,
    read_only_refuses core (parse_method method) = true ->
    callbacks core (map (chunk_call connection url method) chunks) http
      (Some st)
    = Some (http, Some st,
            repeat (reply_event connection 405 (Some "Read-only mode"))
              (length chunks)).
Proof.
  induction chunks as [|c chunks IH]; intros http st R;
    cbn [callbacks map chunk_call cb_connection cb_url cb_method
         cb_upload_data cb_upload_data_size length repeat]; [reflexivity|].
  rewrite answer_refused by exact R. cbn [priv con_cls events].
  now rewrite IH.
Qed.

(** X11: in read-only mode a request whose method is not GET, HEAD or
    OPTIONS never reaches the gate's 401, the listeners or the help
    page: every call after the first, body-chunk calls included, queues
    a 405 and leaves the state as the first call made it, so no body
    byte is stored (with n chunks, n + 1 responses are queued). *)
Theorem read_only_refuses_request :
  forall (core : agent_config_t) (http : http_priv_t)
         (connection : MHD_Connection) (url method : string)
         (chunks : list string),
    read_only_refuses core (parse_method method) = true ->
    serve_request core http connection url method chunks =
      Some (http,
            Some (if (fst (check_auth connection core
                             {| req_body := None; authed := 0 |}) =? 0)%Z
                  then {| req_body := Some ""; authed := 1 |}
                  else {| req_body := None; authed := 0 |}),
            repeat (reply_event connection 405 (Some "Read-only mode"))
              (S (length chunks))).
Proof.
  intros core http connection url method chunks R.
  unfold serve_request, request_calls.
  change (map (chunk_call connection url method) chunks ++
          [chunk_call connection url method ""])%list
    with (map (chunk_call connection url method) chunks ++
          map (chunk_call connection url method) [""])%list.
  rewrite <- map_app.
  cbn [callbacks chunk_call cb_connection cb_url cb_method cb_upload_data
       cb_upload_data_size].
  rewrite answer_first_call. cbn [priv con_cls events].
  fold (chunk_call connection url method).
  rewrite callbacks_refused by exact R.
  rewrite List.length_app. cbn [length app].
  now rewrite Nat.add_1_r.
Qed.

(** X12: the read-only flag matters through the guard only: a call the
    guard lets through (a method that parses to GET or OPTIONS, in
    particular) is handled exactly as with the flag off. *)
Theorem read_only_guard_only :
  forall (core : agent_config_t) (http : http_priv_t)
         (connection : MHD_Connection) (url method upload_data : string)
         (n : nat) (cls : option connection_info_struct),
    read_only_refuses core (parse_method method) = false ->
    answer_to_connection core http connection url method upload_data n cls
    = answer_to_connection {| r_arg := 0; auth_token := auth_token core |}
        http connection url method upload_data n cls.
Proof.
  intros core http connection url method upload_data n cls R.
  unfold answer_to_connection. rewrite R. reflexivity.
Qed.

(* ------------------------------------------------------------------ *)
(** ** Methods *)

Lemma parse_method_cases method :
  (method = "GET" /\ parse_method method = M_GET)
  \/ (method = "POST" /\ parse_method method = M_POST)
  \/ (method = "PUT" /\ parse_method method = M_PUT)
  \/ (method = "DELETE" /\ parse_method method = M_DELETE)
  \/ (method = "OPTIONS" /\ parse_method method = M_OPTIONS)
  \/ (method = "HEAD" /\ parse_method method = M_GET)
  \/ (method <> "GET" /\ method <> "POST" /\ method <> "PUT"
      /\ method <> "DELETE" /\ method <> "OPTIONS" /\ method <> "HEAD"
      /\ parse_method method = M_UNKNOWN).
Proof.
  unfold parse_method.
  destruct (strcmp method "GET" =? 0)%Z eqn:E1;
    [apply Z.eqb_eq, strcmp_eq in E1; tauto|].
  destruct (strcmp method "POST" =? 0)%Z eqn:E2;
    [apply Z.eqb_eq, strcmp_eq in E2; tauto|].
  destruct (strcmp method "PUT" =? 0)%Z eqn:E3;
    [apply Z.eqb_eq, strcmp_eq in E3; tauto|].
  destruct (strcmp method "DELETE" =? 0)%Z eqn:E4;
    [apply Z.eqb_eq, strcmp_eq in E4; tauto|].
  destruct (strcmp method "OPTIONS" =? 0)%Z eqn:E5;
    [apply Z.eqb_eq, strcmp_eq in E5; tauto|].
  destruct (strcmp method "HEAD" =? 0)%Z eqn:E6;
    [apply Z.eqb_eq, strcmp_eq in E6; tauto|].
  do 6 right.
  repeat split; auto; intros ->; discriminate.
Qed.

(** X13: [parse_method] knows six method names, in upper case only:
    each of GET, POST, PUT, DELETE and OPTIONS gives its own enumerator,
    HEAD gives that of GET, and every other string gives the unknown
    method; so a HEAD request is handled, call by call, exactly as the
    GET request with the same arguments. *)
Theorem parse_method_recognises :
  forall (method : string),
    (parse_method method = M_GET <-> method = "GET" \/ method = "HEAD")
    /\ (parse_method method = M_POST <-> method = "POST")
    /\ (parse_method method = M_PUT <-> method = "PUT")
    /\ (parse_method method = M_DELETE <-> method = "DELETE")
    /\ (parse_method method = M_OPTIONS <-> method = "OPTIONS")
    /\ (parse_method method = M_UNKNOWN <->
        method <> "GET" /\ method <> "POST" /\ method <> "PUT"
        /\ method <> "DELETE" /\ method <> "OPTIONS" /\ method <> "HEAD")
    /\ (forall core http connection url upload_data n cls,
          answer_to_connection core http connection url "HEAD" upload_data
            n cls
          = answer_to_connection core http connection url "GET" upload_data
              n cls).
Proof.
  intros method.
  destruct (parse_method_cases method)
    as [[M P]|[[M P]|[[M P]|[[M P]|[[M P]|[[M P]|
        [N1 [N2 [N3 [N4 [N5 [N6 P]]]]]]]]]]]];
    rewrite P; try subst method;
    (repeat split; try discriminate; try tauto; try reflexivity;
     try (intros [H|H]; discriminate H);
     try (intros H; discriminate H);
     try (intros H; exfalso; tauto)).
Qed.

(* ------------------------------------------------------------------ *)
(** ** The private data across calls *)

Lemma register_all_some regs : forall http http',
  register_all regs http = Some http' ->
  listener http' = (rev regs ++ listener http)%list
  /\ help_page http' = help_page http.
Proof.
  induction regs as [|r regs IH]; intros http http'; simpl.
  - intros E. inversion E. auto.
  - unfold http_register_path.
    destruct (cb r =? 0)%Z; [discriminate|].
    intros E. destruct (IH _ _ E) as [L H]. cbn [listener help_page] in *.
    rewrite L, H, <- List.app_assoc. split; [|reflexivity].
    simpl. now destruct r.
Qed.

(** X14: no sequence of callbacks changes the listener list, and the
    help-page cache is written at most once: it stays what it was, or
    goes from empty to the page [make_help] builds from the list; a page
    that is cached is never replaced. *)
Theorem dispatcher_keeps_registry :
  forall (core : agent_config_t) (calls : list callback)
         (http h : http_priv_t) (cls c : option connection_info_struct)
         (ev : list event),
    callbacks core calls http cls = Some (h, c, ev) ->
    listener h = listener http
    /\ (forall page, help_page http = Some page -> h = http)
    /\ (h = http \/
        (help_page http = None /\ help_page h = make_help http)).
Proof.
  intros core calls. induction calls as [|x calls IH];
    intros http h cls c ev; cbn [callbacks].
  - intros E. inversion E; subst. auto.
  - destruct (answer_to_connection core http (cb_connection x) (cb_url x)
                (cb_method x) (cb_upload_data x) (cb_upload_data_size x) cls)
      as [o|] eqn:O; [|discriminate].
    destruct (callbacks core calls (priv o) (con_cls o))
      as [[[h' c'] ev']|] eqn:K; [|discriminate].
    intros E. inversion E; subst h' c' ev. clear E.
    destruct (IH _ _ _ _ _ K) as [L [C W]].
    assert (P : priv o = http \/
                (help_page http = None
                 /\ exists page, make_help http = Some page
                      /\ priv o = {| help_page := Some page;
                                     listener := listener http |})).
    { destruct cls as [st|].
      - exact (proj2 (answer_existing_cases _ _ _ _ _ _ _ _ _ O)).
      - rewrite answer_first_call in O. inversion O. now left. }
    destruct P as [P|[N [page [M P]]]].
    + rewrite P in *. auto.
    + rewrite P in L, C. cbn [listener help_page] in L.
      specialize (C page eq_refl). subst h.
      split; [exact L|]. split.
      * intros q Q. congruence.
      * right. split; [exact N|]. cbn [help_page]. now rewrite M.
Qed.

(** X15: [make_help] runs into its overflow exactly when the listener
    list is empty; after at least one registration on an empty list it
    returns the preamble, one line per route with the most recently
    registered route first, and a final newline. *)
Theorem make_help_needs_a_listener :
  forall (http : http_priv_t),
    (make_help http = None <-> listener http = [])
    /\ (forall regs http',
          listener http = [] -> regs <> [] ->
          register_all regs http = Some http' ->
          make_help http' =
            Some (HELP_TEXT ++ join (map help_line (rev regs)) ++ nl)).
Proof.
  intros http. split.
  - split.
    + intros N. destruct (listener http) as [|l ls] eqn:L; [reflexivity|].
      rewrite make_help_some in N by (rewrite L; discriminate).
      discriminate.
    + intros L. destruct http as [hp ls]. simpl in L. subst ls.
      apply make_help_no_listener.
  - intros regs http' L N R.
    destruct (register_all_some _ _ _ R) as [L' _].
    rewrite L, List.app_nil_r in L'.
    rewrite make_help_some; rewrite L'; [reflexivity|].
    intros E. apply N. apply (f_equal (@rev _)) in E.
    now rewrite rev_involutive in E.
Qed.

(** X16: the help page does not follow later registrations: once a page
    is cached, an authenticated GET of "/" that no listener matches is
    answered with that very page, whatever was registered since. *)
Theorem help_page_survives_registration :
  forall (core : agent_config_t) (http http' : http_priv_t)
         (regs : list http_listener) (connection : MHD_Connection)
         (method upload_data page : string) (st : connection_info_struct),
    help_page http = Some page ->
    register_all regs http = Some http' ->
    read_only_refuses core (parse_method method) = false ->
    parse_method method = M_GET ->
    fst (check_auth connection core st) = 0%Z ->
    (forall l, In l (listener http') -> ~ route_matches l M_GET "/") ->
    listener http' = (rev regs ++ listener http)%list
    /\ answer_to_connection core http' connection "/" method upload_data 0
         (Some st)
       = Some {| ret := queue_ret connection;
                 con_cls :=
                   Some (finalized (snd (check_auth connection core st)));
                 upload_data_size := 0; priv := http';
                 events := [reply_event connection 200 (Some page)] |}.
Proof.
  intros core http http' regs connection method upload_data page st
    P R G M A N.
  destruct (register_all_some _ _ _ R) as [L H].
  split; [exact L|].
  rewrite answer_finalize by exact G. cbv zeta. rewrite M, A.
  cbn [http_method_eqb negb Z.eqb].
  rewrite find_listener_none.
  2:{ intros p I.
      rewrite (proj1 (request_of_url _ _ _ _)), (proj2 (request_of_url _ _ _ _)).
      now apply N. }
  cbn [fst negb Z.eqb andb].
  change (strcmp "/" "/" =? 0)%Z with true. cbn [andb].
  rewrite H, P. do 2 f_equal.
  destruct http' as [hp ls]. cbn [help_page listener] in *. congruence.
Qed.

(* ------------------------------------------------------------------ *)
(** ** The lines of the help page *)

Lemma length_spaces n : String.length (spaces n) = n.
Proof. induction n; simpl; auto. Qed.

Lemma length_left_justify w s :
  strlen (left_justify w s) = Nat.max w (strlen s).
Proof.
  unfold left_justify, strlen. rewrite length_app, length_spaces. lia.
Qed.

Lemma substring_cons n c s :
  substring 0 (S n) (String c s) = String c (substring 0 n s).
Proof. reflexivity. Qed.

Lemma length_substring_le n : forall s,
  (String.length (substring 0 n s) <= n)%nat.
Proof.
  induction n as [|n IH]; intros [|c s]; simpl; try lia.
  specialize (IH s). lia.
Qed.

Lemma substring_short n : forall s,
  (String.length s <= n)%nat -> substring 0 n s = s.
Proof.
  induction n as [|n IH]; intros [|c s]; simpl; intros L;
    try reflexivity; try lia.
  rewrite IH by lia. reflexivity.
Qed.

Lemma substring_app_long n : forall a b,
  (n <= String.length a)%nat -> substring 0 n (a ++ b) = substring 0 n a.
Proof.
  induction n as [|n IH]; intros [|c a] b; simpl; intros L;
    try reflexivity; try lia.
  - now destruct b.
  - rewrite IH by lia. reflexivity.
Qed.

(** X17: a line of the help page never exceeds the 511 characters its
    buffer holds.  For a URL of at most 487 characters the line is
    whole: the URL after " - ", the method columns, and a newline at
    the end.  For a URL of 508 characters or more it is cut down to
    " - " and the first 508 characters of the URL, with no method and
    no newline. *)
Theorem help_line_fits_buffer :
  forall (l : http_listener),
    (strlen (help_line l) <= 511)%nat
    /\ ((strlen (url l) <= 487)%nat ->
        exists columns, help_line l = " - " ++ url l ++ columns ++ nl)
    /\ ((508 <= strlen (url l))%nat ->
        help_line l = " - " ++ substring 0 508 (url l)).
Proof.
  intros l. unfold help_line, snprintf_line.
  change (512 - 1)%nat with 511%nat.
  set (g := left_justify 3 (if has_method l M_GET then "GET" else "")).
  set (p := left_justify 3 (if has_method l M_PUT then "PUT" else "")).
  set (q := left_justify 4 (if has_method l M_POST then "POST" else "")).
  set (d := if has_method l M_DELETE then "DELETE" else "").
  assert (G : strlen g = 3%nat)
    by (subst g; now destruct (has_method l M_GET)).
  assert (P : strlen p = 3%nat)
    by (subst p; now destruct (has_method l M_PUT)).
  assert (Q : strlen q = 4%nat)
    by (subst q; now destruct (has_method l M_POST)).
  assert (D : (strlen d <= 6)%nat)
    by (subst d; destruct (has_method l M_DELETE); simpl; lia).
  split; [apply length_substring_le|]. split.
  - intros U. rewrite substring_short.
    + exists (spaces (20 - strlen (url l)) ++ " " ++ g ++ " " ++ p ++ " "
              ++ q ++ " " ++ d).
      unfold left_justify. now rewrite !app_assoc.
    + unfold strlen in *.
      rewrite !length_app.
      pose proof (length_left_justify 20 (url l)) as J. unfold strlen in J.
      rewrite J. change (String.length " - ") with 3%nat.
      change (String.length " ") with 1%nat.
      change (String.length nl) with 1%nat. lia.
  - intros U. change 511%nat with (S (S (S 508))).
    change (" - " ++ left_justify 20 (url l) ++ " " ++ g ++ " " ++ p ++ " "
            ++ q ++ " " ++ d ++ nl)
      with (String " " (String "-" (String " "
              (left_justify 20 (url l) ++ " " ++ g ++ " " ++ p ++ " "
               ++ q ++ " " ++ d ++ nl)))).
    rewrite !substring_cons. unfold left_justify.
    rewrite app_assoc, substring_app_long by exact U. reflexivity.
Qed.

End Dispatcher.

(* ------------------------------------------------------------------ *)
(** ** Worked instances *)

(** Enumerator values for the instances: one bit per method. *)
Definition one_bit_each (m : http_method) : Z :=
  match m with
  | M_GET => 1
  | M_PUT => 2
  | M_POST => 4
  | M_DELETE => 8
  | M_OPTIONS => 16
  | M_UNKNOWN => 32
  end.

Definition serving : agent_config_t := {| r_arg := 0; auth_token := "c2VjcmV0" |}.
Definition read_only : agent_config_t := {| r_arg := 1; auth_token := "c2VjcmV0" |}.

Definition anonymous : MHD_Connection :=
  {| req_headers := [("Host", "agent")]; queue_ret := MHD_YES |}.
Definition with_credentials : MHD_Connection :=
  {| req_headers := [("Host", "agent"); ("Authorization", "Basic c2VjcmV0")];
     queue_ret := MHD_YES |}.

Definition route_a : http_listener :=
  {| url := "/a"; method := 1; cb := 11; data := 101 |}.
Definition route_a_b : http_listener :=
  {| url := "/a/b"; method := 1; cb := 22; data := 202 |}.
Definition route_foo : http_listener :=
  {| url := "/foo"; method := 7; cb := 33; data := 303 |}.

Definition no_routes : http_priv_t := {| help_page := None; listener := [] |}.
Definition foo_only : http_priv_t :=
  {| help_page := None; listener := [route_foo] |}.

Definition get_a_b_x : http_request :=
  {| r_connection := with_credentials; r_method := M_GET; r_url := "/a/b/x";
     r_body := None; r_bodylen := 0 |}.

Definition authenticated : connection_info_struct :=
  {| req_body := Some "xy"; authed := 1 |}.
Definition unauthenticated : connection_info_struct :=
  {| req_body := None; authed := 0 |}.

Definition cors_any : list header :=
  [("Access-Control-Allow-Headers", "Authorization, Origin");
   ("Access-Control-Allow-Methods", "GET, POST, PUT, DELETE, OPTIONS");
   ("Access-Control-Allow-Origin", "*")].

Lemma first_match_wins_instance :
  exists http,
    register_all [route_a; route_a_b] no_routes = Some http
    /\ listener http = [route_a_b; route_a]
    /\ find_listener one_bit_each get_a_b_x (listener http) =
         (1%Z, [Handler 22 get_a_b_x (Some "x") 202]).
Proof.
  apply (register_then_first_match_wins one_bit_each no_routes [] [] []
           route_a route_a_b get_a_b_x); try reflexivity.
  - vm_compute. discriminate.
  - intros r [<-|[<-|[]]]; simpl; discriminate.
  - intros r [].
Defined.

Lemma body_chunk_call_instance :
  answer_to_connection one_bit_each serving foo_only with_credentials
    "/foo" "POST" "ab" 2 (Some authenticated)
  = Some {| ret := MHD_YES;
            con_cls := Some {| req_body := Some "xyab"; authed := 1 |};
            upload_data_size := 0; priv := foo_only; events := [] |}.
Proof.
  refine (proj1 (body_chunk_call one_bit_each serving foo_only
                   with_credentials "/foo" "POST" "ab" 2 authenticated _) _).
  - discriminate.
  - reflexivity.
Defined.

(** C3 fails in read-only mode: on a POST the body-chunk call queues a
    405, leaves the two bytes unconsumed and the buffer as it was. *)
Lemma body_chunk_read_only_counterexample :
  answer_to_connection one_bit_each read_only foo_only with_credentials
    "/foo" "POST" "ab" 2 (Some authenticated)
  = Some {| ret := MHD_YES; con_cls := Some authenticated;
            upload_data_size := 2; priv := foo_only;
            events :=
              [Queued 405
                 {| rsp_size := 14; rsp_data := Some "Read-only mode";
                    rsp_headers := cors_any |}] |}.
Proof. reflexivity. Qed.



Lemma options_preflight_instance :
  answer_to_connection one_bit_each read_only foo_only anonymous
    "/anything" "OPTIONS" "" 0 (Some unauthenticated)
  = Some {| ret := MHD_YES; con_cls := Some unauthenticated;
            upload_data_size := 0; priv := foo_only;
            events :=
              [Queued 200
                 {| rsp_size := 0; rsp_data := None;
                    rsp_headers := cors_any |}] |}.
Proof.
  refine (proj1 (proj2 (options_preflight one_bit_each read_only foo_only
                          anonymous "/anything" "OPTIONS" "" unauthenticated
                          _))).
  reflexivity.
Defined.

Lemma unauthorized_finalize_instance :
  answer_to_connection one_bit_each serving foo_only anonymous
    "/foo" "GET" "" 0 (Some unauthenticated)
  = Some {| ret := MHD_YES; con_cls := Some unauthenticated;
            upload_data_size := 0; priv := foo_only;
            events :=
              [Queued 401
                 {| rsp_size := 133;
                    rsp_data := Some auth_text;
                    rsp_headers :=
                      ("WWW-Authenticate", "Basic realm=varnish-agent")
                        :: cors_any |}] |}.
Proof.
  refine (proj1 (unauthorized_finalize one_bit_each serving foo_only
                   anonymous "/foo" "GET" "" unauthenticated _ _ _)).
  - reflexivity.
  - discriminate.
  - vm_compute. discriminate.
Defined.

(** C6 fails in read-only mode: with no Authorization header (the gate
    does report credentials required) a POST is answered 405, not 401. *)
Lemma unauthorized_read_only_counterexample :
  fst (check_auth anonymous read_only unauthenticated) = 1%Z
  /\ parse_method "POST" = M_POST
  /\ answer_to_connection one_bit_each read_only foo_only anonymous
       "/foo" "POST" "" 0 (Some unauthenticated)
     = Some {| ret := MHD_YES; con_cls := Some unauthenticated;
               upload_data_size := 0; priv := foo_only;
               events :=
                 [Queued 405
                    {| rsp_size := 14; rsp_data := Some "Read-only mode";
                       rsp_headers := cors_any |}] |}.
Proof. repeat split. Qed.

Lemma body_chunks_assembled_instance :
  serve_request one_bit_each serving foo_only with_credentials
    "/foo/bar" "POST" ["ab"; "cd"; "ef"]
  = Some (foo_only,
          Some {| req_body := Some ("abcdef" ++ String NUL ""); authed := 1 |},
          [Handler 33
             {| r_connection := with_credentials; r_method := M_POST;
                r_url := "/foo/bar";
                r_body := Some ("abcdef" ++ String NUL "");
                r_bodylen := 6 |}
             (Some "bar") 303]).
Proof.
  refine (proj1 (body_chunks_assembled one_bit_each serving foo_only
                   with_credentials "/foo/bar" "POST" ["ab"; "cd"; "ef"]
                   [] [] route_foo _ _ _ _ _ _ _)).
  - reflexivity.
  - intros c [<-|[<-|[<-|[]]]]; discriminate.
  - reflexivity.
  - discriminate.
  - reflexivity.
  - intros p [].
  - split; [vm_compute; discriminate|].
    exists "/bar". split; [reflexivity|]. right. eexists. reflexivity.
Defined.

Lemma no_route_fallback_instance :
  answer_to_connection one_bit_each serving foo_only with_credentials
    "/nowhere" "GET" "" 0 (Some authenticated)
  = Some {| ret := MHD_YES;
            con_cls :=
              Some {| req_body := Some ("xy" ++ String NUL ""); authed := 1 |};
            upload_data_size := 0; priv := foo_only;
            events :=
              [Queued 500
                 {| rsp_size := 6; rsp_data := Some "Failed";
                    rsp_headers := cors_any |}] |}.
Proof.
  refine (proj2 (proj2 (no_route_fallback one_bit_each serving foo_only
                          with_credentials "/nowhere" "GET" "" authenticated
                          _ _ _ _)) _).
  - reflexivity.
  - discriminate.
  - reflexivity.
  - intros l [<-|[]] [_ [rest [U _]]]. discriminate.
  - intros [_ U]. discriminate.
Defined.

(** C8 fails twice.  In read-only mode an authenticated POST that no
    listener matches is answered 405, not 500.  And with no listener at
    all, the first GET of "/" has [make_help] write past its block. *)
Lemma no_route_counterexample :
  (fst (check_auth with_credentials read_only authenticated) = 0%Z
   /\ find_listener one_bit_each
        {| r_connection := with_credentials; r_method := M_POST;
           r_url := "/nowhere"; r_body := None; r_bodylen := 0 |}
        (listener foo_only) = (0%Z, [])
   /\ answer_to_connection one_bit_each read_only foo_only with_credentials
        "/nowhere" "POST" "" 0 (Some authenticated)
      = Some {| ret := MHD_YES; con_cls := Some authenticated;
                upload_data_size := 0; priv := foo_only;
                events :=
                  [Queued 405
                     {| rsp_size := 14; rsp_data := Some "Read-only mode";
                        rsp_headers := cors_any |}] |})
  /\ (make_help one_bit_each no_routes = None
      /\ answer_to_connection one_bit_each serving no_routes with_credentials
           "/" "GET" "" 0 (Some authenticated) = None).
Proof. repeat split. Qed.

(** C9 fails: two headers added in the order A, B reach the transport in
    the order B, A. *)
Lemma add_header_order_counterexample :
  snd (send_response
         (http_add_header
            (http_add_header (http_mkresp anonymous 200 None) "A" "1")
            "B" "2"))
  = [Queued 200
       {| rsp_size := 0; rsp_data := None;
          rsp_headers := ("B", "2") :: ("A", "1") :: cors_any |}].
Proof. reflexivity. Qed.

Lemma check_auth_accepts_instance :
  check_auth with_credentials serving unauthenticated =
    (0%Z, {| req_body := None; authed := 1 |})
  /\ check_auth anonymous serving unauthenticated = (1%Z, unauthenticated).
Proof.
  pose proof (check_auth_accepts_exactly with_credentials serving
                unauthenticated eq_refl) as [A _].
  pose proof (check_auth_accepts_exactly anonymous serving
                unauthenticated eq_refl) as [_ [_ [_ [B _]]]].
  split.
  - apply A. reflexivity.
  - apply B. reflexivity.
Defined.


(* ------------------------------------------------------------------ *)
(** ** Further instances *)

Definition two_authorizations : MHD_Connection :=
  {| req_headers := [("Host", "agent");
                     ("authorization", "Basic wrong");
                     ("Authorization", "Basic c2VjcmV0")];
     queue_ret := MHD_YES |}.

Definition from_origin : MHD_Connection :=
  {| req_headers := [("origin", "https://ui.example");
                     ("Authorization", "Basic c2VjcmV0")];
     queue_ret := MHD_YES |}.

Definition page_cached : http_priv_t :=
  {| help_page := Some "cached"; listener := [] |}.

Lemma content_type_of_extension_instance :
  http_set_content_type (http_mkresp anonymous 200 (Some "x"))
    "/static/app.min.js"
  = http_add_header (http_mkresp anonymous 200 (Some "x"))
      "Content-Type" "text/javascript".
Proof.
  refine (proj1 (content_type_of_extension
                   (http_mkresp anonymous 200 (Some "x"))
                   "/static/app.min" ".js" "text/javascript" _)).
  right. left. reflexivity.
Defined.

Lemma content_type_unknown_extension_instance :
  http_set_content_type (http_mkresp anonymous 200 (Some "x")) "/index.HTML"
  = http_mkresp anonymous 200 (Some "x").
Proof.
  apply (content_type_unknown_extension
           (http_mkresp anonymous 200 (Some "x")) "/index.HTML").
  intros stem ext t I E.
  pose proof (table_ext_last_dot ext t stem I) as S.
  rewrite <- E in S. vm_compute in S. inversion S; subst ext.
  simpl in I. repeat (destruct I as [I|I]; [discriminate I|]). exact I.
Defined.

Lemma check_auth_first_header_instance :
  check_auth two_authorizations serving unauthenticated
  = (1%Z, unauthenticated).
Proof.
  refine (proj2 (check_auth_first_header two_authorizations serving
                   unauthenticated [("Host", "agent")]
                   "authorization" "Basic wrong"
                   [("Authorization", "Basic c2VjcmV0")] _ _ _) _ _).
  - reflexivity.
  - intros k' v' [I|[]]. inversion I. vm_compute. discriminate.
  - reflexivity.
  - reflexivity.
  - vm_compute. discriminate.
Defined.


Lemma queued_responses_carry_cors_instance :
  exists hs,
    rsp_headers
      {| rsp_size := 6; rsp_data := Some "Failed";
         rsp_headers :=
           [("Access-Control-Allow-Headers", "Authorization, Origin");
            ("Access-Control-Allow-Methods",
             "GET, POST, PUT, DELETE, OPTIONS");
            ("Access-Control-Allow-Origin", "https://ui.example")] |}
    = (hs ++
       [("Access-Control-Allow-Headers", "Authorization, Origin");
        ("Access-Control-Allow-Methods", "GET, POST, PUT, DELETE, OPTIONS");
        ("Access-Control-Allow-Origin", "https://ui.example")])%list
    /\ (hs = [] \/
        (500%Z = 401%Z /\
         hs = [("WWW-Authenticate", "Basic realm=varnish-agent")])).
Proof.
  refine (proj2 (queued_responses_carry_cors one_bit_each serving foo_only
                   from_origin "/nowhere" "GET" "" 0 (Some authenticated)
                   _ 500 _ _ _)).
  - reflexivity.
  - left. reflexivity.
Defined.

Lemma unauthenticated_request_instance :
  callbacks one_bit_each serving
    (request_calls anonymous "/foo" "POST" ["ab"; "cd"]) foo_only
    (request_completed (Some authenticated))
  = Some (foo_only, Some unauthenticated, [auth_event anonymous]).
Proof.
  apply (unauthenticated_request_drops_body one_bit_each serving foo_only
           anonymous "/foo" "POST" ["ab"; "cd"] (Some authenticated)).
  - vm_compute. discriminate.
  - reflexivity.
  - discriminate.
  - intros c [<-|[<-|[]]]; discriminate.
Defined.

Lemma read_only_refuses_request_instance :
  serve_request one_bit_each read_only foo_only with_credentials
    "/foo" "PUT" ["ab"]
  = Some (foo_only, Some {| req_body := Some ""; authed := 1 |},
          [reply_event with_credentials 405 (Some "Read-only mode");
           reply_event with_credentials 405 (Some "Read-only mode")]).
Proof.
  apply (read_only_refuses_request one_bit_each read_only foo_only
           with_credentials "/foo" "PUT" ["ab"]).
  reflexivity.
Defined.

Lemma read_only_guard_only_instance :
  answer_to_connection one_bit_each read_only foo_only with_credentials
    "/foo/bar" "GET" "" 0 (Some authenticated)
  = answer_to_connection one_bit_each serving foo_only with_credentials
      "/foo/bar" "GET" "" 0 (Some authenticated).
Proof.
  apply (read_only_guard_only one_bit_each read_only foo_only
           with_credentials "/foo/bar" "GET" "" 0 (Some authenticated)).
  reflexivity.
Defined.

Lemma dispatcher_keeps_registry_instance :
  listener {| help_page := make_help one_bit_each foo_only;
              listener := [route_foo] |} = listener foo_only
  /\ help_page {| help_page := make_help one_bit_each foo_only;
                  listener := [route_foo] |}
     = make_help one_bit_each foo_only.
Proof.
  destruct (dispatcher_keeps_registry one_bit_each serving
              (request_calls with_credentials "/" "GET" []) foo_only
              {| help_page := make_help one_bit_each foo_only;
                 listener := [route_foo] |}
              None
              (Some {| req_body := Some (String NUL ""); authed := 1 |})
              [reply_event with_credentials 200
                 (make_help one_bit_each foo_only)]
              eq_refl) as [L [_ [W|[_ W]]]].
  - split; [exact L|]. now rewrite W.
  - split; [exact L | exact W].
Defined.

Lemma help_page_survives_registration_instance :
  answer_to_connection one_bit_each serving
    {| help_page := Some "cached"; listener := [route_foo] |}
    with_credentials "/" "GET" "" 0 (Some authenticated)
  = Some {| ret := MHD_YES;
            con_cls :=
              Some {| req_body := Some ("xy" ++ String NUL ""); authed := 1 |};
            upload_data_size := 0;
            priv := {| help_page := Some "cached"; listener := [route_foo] |};
            events := [reply_event with_credentials 200 (Some "cached")] |}.
Proof.
  refine (proj2 (help_page_survives_registration one_bit_each serving
                   page_cached
                   {| help_page := Some "cached"; listener := [route_foo] |}
                   [route_foo] with_credentials "GET" "" "cached"
                   authenticated _ _ _ _ _ _)).
  - reflexivity.
  - reflexivity.
  - reflexivity.
  - reflexivity.
  - reflexivity.
  - intros l [<-|[]] [_ [rest [U _]]]. discriminate.
Defined.

End Http.
